(** * Digital caliper firmware: bit sampler, frame handoff and packet decoder

    A shallow embedding of [digital_caliper.ino].  The sketch keeps all of
    its state in module-level variables; here they are the fields of one
    record, [globals], and every routine of the sketch is a function from
    [globals] to [globals].  The two inputs the interrupt routine reads from
    the hardware, [micros()] and the level of the DATA pin, are arguments of
    [read_bit].  Text sent to [Serial] is appended to a log.

    Integer types are [Z] with the wrap-around of the C type written out
    ([unsigned long] and [long] are 32 bits wide on the ESP32).  The [float]
    and [double] arithmetic of [handleData] is IEEE-754 binary32 and
    binary64, taken from the standard library's [SpecFloat]. *)

From Stdlib Require Import ZArith List Bool Lia String QArith Qabs.
From Stdlib Require Import Floats.SpecFloat.
Import ListNotations.

Local Open Scope Z_scope.

(** ** Machine integers and the Arduino macros the sketch uses *)

Definition uint8_t (x : Z) : Z := x mod 2 ^ 8.
Definition uint32_t (x : Z) : Z := x mod 2 ^ 32.

(** [long]: two's complement on 32 bits. *)
Definition long (x : Z) : Z := (x + 2 ^ 31) mod 2 ^ 32 - 2 ^ 31.

(** [bitRead(value, bit)] is [(((value) >> (bit)) & 0x01)]. *)
Definition bitRead (value bit : Z) : Z := Z.land (Z.shiftr value bit) 1.

(** A C integer used as a condition. *)
Definition truthy (x : Z) : bool := negb (x =? 0).

(** [constrain(amt, low, high)] is
    [((amt)<(low)?(low):((amt)>(high)?(high):(amt)))]. *)
Definition constrain (amt low high : Z) : Z :=
  if amt <? low then low else if amt >? high then high else amt.

(** ** Floating point *)

Definition double_prec : Z := 53.
Definition double_emax : Z := 1024.
Definition float_prec : Z := 24.
Definition float_emax : Z := 128.

(** Integer to [double]; exact for every 32-bit integer. *)
Definition double_of_long (z : Z) : spec_float :=
  binary_normalize double_prec double_emax z 0 false.

(** [double] to [float], rounding to nearest, ties to even. *)
Definition float_of_double (x : spec_float) : spec_float :=
  match x with
  | S754_finite s m e => binary_round float_prec float_emax s m e
  | _ => x
  end.

(** [float] to [double]: the same number, with a 53-bit mantissa. *)
Definition double_of_float (x : spec_float) : spec_float :=
  match x with
  | S754_finite s m e => binary_round double_prec double_emax s m e
  | _ => x
  end.

Definition double_div : spec_float -> spec_float -> spec_float :=
  SFdiv double_prec double_emax.

(** The literal [100.0]. *)
Definition lit_100_0 : spec_float := double_of_long 100.

(** The literal [25.4]: the [double] nearest to 254/10. *)
Definition lit_25_4 : spec_float :=
  double_div (double_of_long 254) (double_of_long 10).

Definition is_finite (x : spec_float) : bool :=
  match x with
  | S754_zero _ | S754_finite _ _ _ => true
  | _ => false
  end.

(** The rational number a finite float stands for: [m * 2^e], with its
    sign. *)
Definition SF2Q (x : spec_float) : Q :=
  match x with
  | S754_finite s m e =>
      let sm := cond_Zopp s (Zpos m) in
      match e with
      | Zneg p => sm # 2 ^ p
      | _ => inject_Z (sm * 2 ^ e)
      end
  | _ => 0%Q
  end.

(** ** Serial output *)

Inductive serial_event : Type :=
| print_str (s : string)
| print_int (z : Z)
| print_float (x : spec_float) (digits : Z)
| println.

(** ** The sketch's variables *)

Record globals : Type := mkGlobals {
  caliper_raw_data : Z;
  bit_counter : Z;
  new_packet_ready : bool;
  last_interrupt_time : Z;
  measurement : spec_float;
  inch : bool;
  Serial : list serial_event
}.

Definition set_caliper_raw_data (v : Z) (g : globals) : globals :=
  mkGlobals v (bit_counter g) (new_packet_ready g) (last_interrupt_time g)
            (measurement g) (inch g) (Serial g).

Definition set_bit_counter (v : Z) (g : globals) : globals :=
  mkGlobals (caliper_raw_data g) v (new_packet_ready g) (last_interrupt_time g)
            (measurement g) (inch g) (Serial g).

Definition set_new_packet_ready (v : bool) (g : globals) : globals :=
  mkGlobals (caliper_raw_data g) (bit_counter g) v (last_interrupt_time g)
            (measurement g) (inch g) (Serial g).

Definition set_last_interrupt_time (v : Z) (g : globals) : globals :=
  mkGlobals (caliper_raw_data g) (bit_counter g) (new_packet_ready g) v
            (measurement g) (inch g) (Serial g).

Definition set_measurement (v : spec_float) (g : globals) : globals :=
  mkGlobals (caliper_raw_data g) (bit_counter g) (new_packet_ready g)
            (last_interrupt_time g) v (inch g) (Serial g).

Definition set_inch (v : bool) (g : globals) : globals :=
  mkGlobals (caliper_raw_data g) (bit_counter g) (new_packet_ready g)
            (last_interrupt_time g) (measurement g) v (Serial g).

Definition Serial_print (e : serial_event) (g : globals) : globals :=
  mkGlobals (caliper_raw_data g) (bit_counter g) (new_packet_ready g)
            (last_interrupt_time g) (measurement g) (inch g) (Serial g ++ [e]).

(** The initializers of the declarations. *)
Definition initial : globals :=
  mkGlobals 0 0 false 0 (S754_zero false) false [].

Definition PACKET_TIMEOUT_US : Z := 5000.

(** ** The interrupt routine *)

(** [current_time - last_interrupt_time] on [unsigned long]. *)
Definition elapsed (last_time current_time : Z) : Z :=
  uint32_t (current_time - last_time).

(** Lines 61 and 62. *)
Definition start_packet (g : globals) : globals :=
  let g := set_bit_counter 0 g in
  set_caliper_raw_data 0 g.

(** Lines 65 to 87. *)
Definition store_bit (current_time : Z) (data_high : bool) (g : globals)
  : globals :=
  let g := set_last_interrupt_time current_time g in
  let g :=
    if bit_counter g <? 24 then
      let g :=
        if data_high
        then set_caliper_raw_data
               (uint32_t (Z.lor (caliper_raw_data g)
                                (uint32_t (Z.shiftl 1 (bit_counter g))))) g
        else g in
      let temp := bit_counter g in
      let temp := uint8_t (temp + 1) in
      set_bit_counter temp g
    else g in
  if bit_counter g =? 24 then set_new_packet_ready true g else g.

Definition read_bit (current_time : Z) (data_high : bool) (g : globals)
  : globals :=
  let g :=
    if elapsed (last_interrupt_time g) current_time >? PACKET_TIMEOUT_US
    then start_packet g
    else g in
  store_bit current_time data_high g.

(** One rising edge of CLK: the time [micros()] returns and the DATA level. *)
Record edge : Type := mkEdge { edge_time : Z; edge_data : bool }.

Definition on_edge (g : globals) (e : edge) : globals :=
  read_bit (edge_time e) (edge_data e) g.

(** The interrupt routine run once per edge, oldest edge first. *)
Definition run_edges (es : list edge) (g : globals) : globals :=
  fold_left on_edge es g.

(** ** The decoder *)

Fixpoint print_binary_from (value : Z) (n : nat) (g : globals) : globals :=
  match n with
  | O => g
  | S i =>
      let g := Serial_print (print_int (bitRead value (Z.of_nat i))) g in
      let g := if Z.of_nat i mod 4 =? 0
               then Serial_print (print_str " ") g else g in
      print_binary_from value i g
  end.

(** [for (int i = bits - 1; i >= 0; i--)].  The sketch calls it with 24 and
    with 4 bits; the arguments are a [uint32_t] and a [uint8_t], and this
    is what the code does for a 32-bit [value] and [bits] from 0 to 32. *)
Definition print_binary (value bits : Z) (g : globals) : globals :=
  print_binary_from value (Z.to_nat bits) g.

Definition printResultToOutput (binaryData flags : Z) (g : globals)
  : globals :=
  let g := Serial_print (print_str "Binary data: ") g in
  let g := print_binary binaryData 24 g in
  let g := Serial_print (print_str " | Value: ") g in
  let g := Serial_print (print_float (measurement g) 2) g in
  let g := Serial_print (print_str " mm") g in
  let g := Serial_print (print_str " | Flags: ") g in
  let g := print_binary flags 4 g in
  Serial_print println g.

(** Lines 144: the flag nibble. *)
Definition flags_of (data_copy : Z) : Z :=
  uint8_t (Z.land (Z.shiftr data_copy 20) 0x0F).

(** Lines 140, 147 and 150: [integerMeasurement] once it has been
    constrained. *)
Definition integerMeasurement_of (data_copy : Z) : Z :=
  let integerMeasurement := long (Z.land data_copy 0x0FFFFF) in
  let flags := flags_of data_copy in
  let integerMeasurement :=
    long (integerMeasurement * (if truthy (bitRead flags 0) then -1 else 1)) in
  constrain integerMeasurement (-15000) 15000.

(** Line 151: the value assigned to [measurement], in millimeters. *)
Definition millimeters_of (data_copy : Z) : spec_float :=
  float_of_double
    (double_div (double_of_long (integerMeasurement_of data_copy)) lit_100_0).

(** Line 153: [measurement /= 25.4]. *)
Definition to_inches (m : spec_float) : spec_float :=
  float_of_double (double_div (double_of_float m) lit_25_4).

Definition handleData (data_copy : Z) (g : globals) : globals :=
  let flags := flags_of data_copy in
  let g := set_inch (truthy (bitRead flags 3)) g in
  let g := set_measurement (millimeters_of data_copy) g in
  let g := if inch g then set_measurement (to_inches (measurement g)) g
           else g in
  printResultToOutput data_copy flags g.

(** ** The main loop *)

(** [loop()] up to the call of [updateOled()], which draws on the display
    and touches none of the variables above. *)
Definition loop (g : globals) : globals :=
  if new_packet_ready g then
    let data_copy := caliper_raw_data g in
    let g := set_new_packet_ready false g in
    handleData data_copy g
  else g.

(** ** Interrupt and main loop side by side

    The interrupt routine runs to completion whenever an edge arrives and
    interrupts are enabled.  The main loop offers it two places to run in
    between: before the test of [new_packet_ready], and after a successful
    test, before [noInterrupts()].  From [noInterrupts()] to [interrupts()]
    nothing can run in between, so the copy and the clearing of the flag are
    one step.  [handleData] works on the copy alone and is taken in the same
    step. *)

Inductive main_pc : Type :=
| at_test        (* about to evaluate [if (new_packet_ready)] *)
| at_critical.   (* test succeeded, about to run [noInterrupts()] *)

Inductive event : Type :=
| Edge (current_time : Z) (data_high : bool)   (* the interrupt fires *)
| Main.                                        (* the main loop advances *)

Record system : Type := mkSystem {
  vars : globals;
  pc : main_pc;
  drained : list Z   (* every [data_copy] passed to [handleData], oldest first *)
}.

Definition boot : system := mkSystem initial at_test [].

Definition step (s : system) (ev : event) : system :=
  match ev with
  | Edge current_time data_high =>
      mkSystem (read_bit current_time data_high (vars s)) (pc s) (drained s)
  | Main =>
      match pc s with
      | at_test =>
          if new_packet_ready (vars s)
          then mkSystem (vars s) at_critical (drained s)
          else s
      | at_critical =>
          let data_copy := caliper_raw_data (vars s) in
          let g := set_new_packet_ready false (vars s) in
          mkSystem (handleData data_copy g) at_test (drained s ++ [data_copy])
      end
  end.

Definition run (evs : list event) (s : system) : system :=
  fold_left step evs s.

(** ** Frames as the wire carries them *)

(** The number whose bit [i] is the [i]-th element of the list. *)
Fixpoint bits_value (bits : list bool) : Z :=
  match bits with
  | [] => 0
  | b :: rest => Z.b2z b + 2 * bits_value rest
  end.

(** What the bits of a burst of edges amount to: only the first 24 count. *)
Definition frame_of (es : list edge) : Z :=
  bits_value (firstn 24 (map edge_data es)).

(** Every edge of [es] comes at most [PACKET_TIMEOUT_US] after the one
    before it, the first one after [last_time]. *)
Fixpoint close_together (last_time : Z) (es : list edge) : Prop :=
  match es with
  | [] => True
  | e :: rest =>
      elapsed last_time (edge_time e) <= PACKET_TIMEOUT_US
      /\ close_together (edge_time e) rest
  end.

(** The frame a caliper sends for a magnitude, a sign and a unit, by the
    documented layout: magnitude in bits 0..19, sign in bit 20, unit in
    bit 23, bits 21 and 22 clear. *)
Definition encode (magnitude : Z) (sign unit : bool) : Z :=
  magnitude + Z.shiftl (Z.b2z sign) 20 + Z.shiftl (Z.b2z unit) 23.

(** [n] edges, [period] microseconds apart, the first at [start], carrying
    the low [n] bits of [frame], least significant first. *)
Fixpoint burst (start period frame : Z) (n : nat) : list event :=
  match n with
  | O => []
  | S k => Edge start (Z.odd frame) :: burst (start + period) period (frame / 2) k
  end.

(** ** What the decoder computes, in exact arithmetic *)

(** The low 20 bits with the sign of bit 20, in hundredths of a millimeter,
    clamped. *)
Definition hundredths (data_copy : Z) : Z :=
  let magnitude := data_copy mod 2 ^ 20 in
  let signed := if Z.testbit data_copy 20 then - magnitude else magnitude in
  Z.max (-15000) (Z.min 15000 signed).

(** [x] is [q] up to a relative error of [2^-k]. *)
Definition close_to (k : positive) (x : spec_float) (q : Q) : Prop :=
  is_finite x = true
  /\ (Qabs (SF2Q x - q) <= Qabs q * (1 # 2 ^ k))%Q.

(** The same test on [q = c / d], in integers. *)
Definition close_to_bool (k : positive) (x : spec_float) (c : Z) (d : positive)
  : bool :=
  match x with
  | S754_zero _ => c =? 0
  | S754_finite s m (Zneg p) =>
      let sm := cond_Zopp s (Zpos m) in
      Z.abs (sm * Zpos d - c * Zpos (2 ^ p)) * Zpos (2 ^ k)
      <=? Z.abs c * Zpos (2 ^ p)
  | _ => false
  end.

(** [lo <= x <= hi], in integers. *)
Definition between_bool (lo hi : Z) (x : spec_float) : bool :=
  match x with
  | S754_zero _ => (lo <=? 0) && (0 <=? hi)
  | S754_finite s m (Zneg p) =>
      let sm := cond_Zopp s (Zpos m) in
      (lo * Zpos (2 ^ p) <=? sm) && (sm <=? hi * Zpos (2 ^ p))
  | _ => false
  end.

Definition float_of_hundredths (c : Z) : spec_float :=
  float_of_double (double_div (double_of_long c) lit_100_0).

(** The checks made on each of the 30001 values [integerMeasurement] can
    take after line 150. *)
Definition millimeters_ok (c : Z) : bool :=
  let x := float_of_hundredths c in
  close_to_bool 24 x c 100 && between_bool (-150) 150 x.

Definition inches_ok (c : Z) : bool :=
  close_to_bool 23 (to_inches (float_of_hundredths c)) c 2540.

(** [f] holds of the [n] integers from [c] on. *)
Fixpoint holds_from (f : Z -> bool) (c : Z) (n : nat) : bool :=
  match n with
  | O => true
  | S k => f c && holds_from f (c + 1) k
  end.

(** The events [print_binary] appends. *)
Fixpoint binary_text (value : Z) (n : nat) : list serial_event :=
  match n with
  | O => []
  | S i =>
      print_int (bitRead value (Z.of_nat i))
      :: (if Z.of_nat i mod 4 =? 0 then [print_str " "] else [])
      ++ binary_text value i
  end.

(** The events one call of [handleData] appends. *)
Definition diagnostic_line (data_copy : Z) : list serial_event :=
  Serial (handleData data_copy initial).

(** The accumulator holds [bit_counter] bits and nothing above them. *)
Definition accumulator_ok (g : globals) : Prop :=
  0 <= bit_counter g <= 24
  /\ 0 <= caliper_raw_data g < 2 ^ bit_counter g.

(** ** A frame on the wire *)

(** The [n] edges a caliper produces for the low [n] bits of [frame], least
    significant first, [period] microseconds apart, the first at [start]. *)
Fixpoint edges_of_frame (start period frame : Z) (n : nat) : list edge :=
  match n with
  | O => []
  | S k =>
      mkEdge start (Z.odd frame)
      :: edges_of_frame (start + period) period (frame / 2) k
  end.

Definition event_of_edge (e : edge) : event :=
  Edge (edge_time e) (edge_data e).

(** ** The display *)

(** More float arithmetic: [int] to [float], [ceilf], [float] addition and
    [float] to [int] (which drops the fraction). *)
Definition float_of_long (z : Z) : spec_float :=
  binary_normalize float_prec float_emax z 0 false.

Definition float_add : spec_float -> spec_float -> spec_float :=
  SFadd float_prec float_emax.

Definition ceilf (x : spec_float) : spec_float :=
  match x with
  | S754_finite s m e =>
      let sm := cond_Zopp s (Zpos m) in
      let up := match e with
                | Zneg p => - ((- sm) / Zpos (2 ^ p))
                | _ => sm * 2 ^ e
                end in
      binary_normalize float_prec float_emax up 0 s
  | _ => x
  end.

Definition long_of_float (x : spec_float) : Z :=
  match x with
  | S754_finite s m e =>
      let sm := cond_Zopp s (Zpos m) in
      match e with
      | Zneg p => Z.quot sm (Zpos (2 ^ p))
      | _ => sm * 2 ^ e
      end
  | _ => 0
  end.

(** The literal [2.5]. *)
Definition lit_2_5 : spec_float :=
  double_div (double_of_long 5) (double_of_long 2).

(** The calls made on the [oled] object, in order.  [drawBitmap] is always
    given [ruler_bitmap]. *)
Inductive oled_call : Type :=
| drawBitmap (x y w h : Z)
| rect (x0 y0 x1 y1 : Z)
| setCursorXY (x y : Z)
| setScale (scale : Z)
| printf (format : string) (value : spec_float)
| update.

(** The variables of the display side: [oledTimer] and the [oled] object. *)
Record display : Type := mkDisplay {
  oledTimer : Z;
  oled : list oled_call
}.

Definition oled_do (c : oled_call) (u : display) : display :=
  mkDisplay (oledTimer u) (oled u ++ [c]).

Definition rulerStartX : Z := 29.
Definition UPDATE_OLED_PERIOD : Z := 100.

(** The test of line 106. *)
Definition off_the_ruler (m : spec_float) : bool :=
  SFltb m (float_of_long 0) || SFltb (float_of_long 150) m.

(** The third argument of [oled.rect] at line 109. *)
Definition ruler_right_edge (m : spec_float) : Z :=
  long_of_float
    (float_add
       (ceilf (float_of_double (double_div (double_of_float m) lit_2_5)))
       (float_of_long rulerStartX)).

Definition fillMeasuredDistanceOnRuler (g : globals) (u : display) : display :=
  if off_the_ruler (measurement g) then u
  else
    let u := oled_do (drawBitmap 23 0 82 15) u in
    oled_do (rect rulerStartX 5 (ruler_right_edge (measurement g)) 9) u.

Definition drawMeasuredValue (g : globals) (u : display) : display :=
  let u := oled_do (setCursorXY 18 16) u in
  let u := oled_do (setScale 2) u in
  if inch g
  then oled_do (printf "%0.3f inch  " (measurement g)) u
  else oled_do (printf "%0.2f mm  " (measurement g)) u.

(** [millis] is what [millis()] returns. *)
Definition updateOled (force : bool) (millis : Z) (g : globals) (u : display)
  : display :=
  let ms := uint8_t millis in
  if force || (uint8_t (ms - oledTimer u) >=? UPDATE_OLED_PERIOD) then
    let u := mkDisplay ms (oled u) in
    let u := fillMeasuredDistanceOnRuler g u in
    let u := drawMeasuredValue g u in
    oled_do update u
  else u.

(** The whole of [loop()], display included. *)
Definition loop_with_display (millis : Z) (gu : globals * display)
  : globals * display :=
  let (g, u) := gu in
  if new_packet_ready g then
    let g := loop g in
    (g, updateOled false millis g u)
  else (g, u).

(** The check made on each value from 0 to 15000 hundredths. *)
Definition ruler_ok (c : Z) : bool :=
  let x := float_of_hundredths c in
  negb (off_the_ruler x) && (ruler_right_edge x =? 29 + (c + 249) / 250).

(** ** What [print_binary] prints, read back *)

Fixpoint printed_digits (text : list serial_event) : list Z :=
  match text with
  | [] => []
  | print_int z :: rest => z :: printed_digits rest
  | _ :: rest => printed_digits rest
  end.

(** The number a list of binary digits spells, first digit most
    significant. *)
Definition digits_value (digits : list Z) : Z :=
  fold_left (fun acc digit => 2 * acc + digit) digits 0.

(** ** Frames sent with any spacing *)

(** The low [n] bits of [frame], least significant first. *)
Fixpoint frame_bits (frame : Z) (n : nat) : list bool :=
  match n with
  | O => []
  | S k => Z.odd frame :: frame_bits (frame / 2) k
  end.

(** One edge at each of the given times, carrying the bits of [frame],
    least significant first. *)
Fixpoint edges_at (times : list Z) (frame : Z) : list edge :=
  match times with
  | [] => []
  | t :: rest => mkEdge t (Z.odd frame) :: edges_at rest (frame / 2)
  end.

(** The time of the last edge of [es], or [t] when there is none. *)
Definition last_time (t : Z) (es : list edge) : Z :=
  fold_left (fun _ e => edge_time e) es t.

(** The edges of each frame, each frame followed by one pass of the main
    loop (the test of the flag and, if it is set, the drain). *)
Fixpoint polled_after_each_frame (frames : list (list edge)) : list event :=
  match frames with
  | [] => []
  | f :: rest =>
      map event_of_edge f ++ [Main; Main] ++ polled_after_each_frame rest
  end.

(** Every frame has 24 edges; within a frame each edge is at most
    [PACKET_TIMEOUT_US] after the one before; the first edge of a frame is
    more than [PACKET_TIMEOUT_US] after the last edge before it, which is
    at [last].  All gaps are taken as the sketch takes them, by [elapsed]:
    the difference of two timestamps on 32 bits. *)
Fixpoint well_spaced (last : Z) (frames : list (list edge)) : Prop :=
  match frames with
  | [] => True
  | f :: rest =>
      match f with
      | [] => False
      | e :: es =>
          List.length f = 24%nat
          /\ PACKET_TIMEOUT_US < elapsed last (edge_time e)
          /\ close_together (edge_time e) es
          /\ well_spaced (last_time (edge_time e) es) rest
      end
  end.

(** * Properties *)

(** Reading a field of a record that has just been written. *)
Ltac fields :=
  unfold set_caliper_raw_data, set_bit_counter, set_new_packet_ready,
         set_last_interrupt_time, set_measurement, set_inch;
  cbn [caliper_raw_data bit_counter new_packet_ready last_interrupt_time
       measurement inch Serial].

Ltac fields_in_all :=
  unfold set_caliper_raw_data, set_bit_counter, set_new_packet_ready,
         set_last_interrupt_time, set_measurement, set_inch in *;
  cbn [caliper_raw_data bit_counter new_packet_ready last_interrupt_time
       measurement inch Serial] in *.

(** Closed goals about concrete inputs. *)
Ltac concrete :=
  repeat split; vm_compute; first [reflexivity | discriminate | exact I].

(** ** Arithmetic of the accumulator *)

Lemma high_bits_clear (n p i : Z) :
  0 <= n < 2 ^ p -> 0 <= p <= i -> Z.testbit n i = false.
Proof.
  intros Hn Hp.
  rewrite <- (Z.mod_small n (2 ^ p)) by exact Hn.
  apply Z.mod_pow2_bits_high. exact Hp.
Qed.

Lemma lor_bit_above (n p : Z) :
  0 <= p -> 0 <= n < 2 ^ p -> Z.lor n (2 ^ p) = n + 2 ^ p.
Proof.
  intros Hp Hn.
  rewrite <- Z.lxor_lor, <- Z.add_nocarry_lxor; trivial;
    apply Z.bits_inj'; intros i Hi;
    rewrite Z.land_spec, Z.bits_0, Z.pow2_bits_eqb by lia;
    destruct (Z.eqb_spec p i) as [->|Hne];
    rewrite ?andb_false_r; trivial;
    rewrite (high_bits_clear n i i) by lia; reflexivity.
Qed.

Lemma uint32_small (x : Z) : 0 <= x < 2 ^ 32 -> uint32_t x = x.
Proof. intros H. unfold uint32_t. apply Z.mod_small. exact H. Qed.

Lemma uint8_small (x : Z) : 0 <= x < 2 ^ 8 -> uint8_t x = x.
Proof. intros H. unfold uint8_t. apply Z.mod_small. exact H. Qed.

Lemma pow2_le_24 (p : Z) : 0 <= p <= 24 -> 0 < 2 ^ p <= 2 ^ 24.
Proof.
  intros H. split.
  - apply Z.pow_pos_nonneg; lia.
  - apply Z.pow_le_mono_r; lia.
Qed.

(** What line 73 stores when the accumulator holds [p < 24] bits. *)
Lemma set_bit_value (raw p : Z) :
  0 <= p < 24 -> 0 <= raw < 2 ^ p ->
  uint32_t (Z.lor raw (uint32_t (Z.shiftl 1 p))) = raw + 2 ^ p.
Proof.
  intros Hp Hraw.
  pose proof (pow2_le_24 p ltac:(lia)) as Hpow.
  rewrite Z.shiftl_1_l.
  rewrite (uint32_small (2 ^ p)) by (change (2 ^ 32) with 4294967296;
    change (2 ^ 24) with 16777216 in Hpow; lia).
  rewrite lor_bit_above by lia.
  apply uint32_small.
  change (2 ^ 32) with 4294967296; change (2 ^ 24) with 16777216 in Hpow; lia.
Qed.

(** ** One call of the interrupt routine *)

(** The part of [read_bit] after the timeout test, on an accumulator that
    holds [p] bits. *)
Lemma read_bit_no_reset (t : Z) (d : bool) (g : globals) :
  elapsed (last_interrupt_time g) t <= PACKET_TIMEOUT_US ->
  accumulator_ok g ->
  read_bit t d g =
    mkGlobals
      (if bit_counter g <? 24
       then caliper_raw_data g + Z.b2z d * 2 ^ bit_counter g
       else caliper_raw_data g)
      (if bit_counter g <? 24 then bit_counter g + 1 else bit_counter g)
      (new_packet_ready g || (23 <=? bit_counter g))
      t (measurement g) (inch g) (Serial g).
Proof.
  intros Hgap [Hbc Hraw].
  unfold read_bit, store_bit.
  destruct (Z.gtb_spec (elapsed (last_interrupt_time g) t) PACKET_TIMEOUT_US)
    as [Hgt|_]; [lia|].
  destruct g as [raw bc rdy last m i out]. fields_in_all.
  destruct (Z.ltb_spec bc 24) as [Hlt|Hge].
  - destruct d; fields; cbn [Z.b2z];
      rewrite uint8_small by (change (2 ^ 8) with 256; lia);
      [rewrite set_bit_value, Z.mul_1_l by lia
      |rewrite Z.mul_0_l, Z.add_0_r];
      destruct (Z.eqb_spec (bc + 1) 24), (Z.leb_spec 23 bc); try lia;
      rewrite ?orb_true_r, ?orb_false_r; reflexivity.
  - assert (bc = 24) as -> by lia. simpl.
    rewrite orb_true_r. reflexivity.
Qed.

(** A call that finds the timeout exceeded forgets the accumulator and
    stores its own bit at position 0. *)
Lemma read_bit_reset (t : Z) (d : bool) (g : globals) :
  PACKET_TIMEOUT_US < elapsed (last_interrupt_time g) t ->
  read_bit t d g =
    mkGlobals (Z.b2z d) 1 (new_packet_ready g) t
              (measurement g) (inch g) (Serial g).
Proof.
  intros Hgap. unfold read_bit, store_bit, start_packet.
  destruct (Z.gtb_spec (elapsed (last_interrupt_time g) t) PACKET_TIMEOUT_US)
    as [_|Hle]; [|lia].
  destruct g as [raw bc rdy last m i out]; destruct d; reflexivity.
Qed.

Lemma read_bit_keeps_ok (t : Z) (d : bool) (g : globals) :
  accumulator_ok g -> accumulator_ok (read_bit t d g).
Proof.
  intros Hok.
  destruct (Z.le_gt_cases (elapsed (last_interrupt_time g) t)
                          PACKET_TIMEOUT_US) as [Hle|Hgt].
  - rewrite read_bit_no_reset by assumption.
    destruct Hok as [Hbc Hraw]. unfold accumulator_ok. fields.
    destruct (Z.ltb_spec (bit_counter g) 24) as [Hlt|Hge];
      [|split; assumption].
    split; [lia|].
    change (bit_counter g + 1) with (Z.succ (bit_counter g)).
    rewrite Z.pow_succ_r by lia.
    destruct d; cbn [Z.b2z]; lia.
  - rewrite read_bit_reset by assumption.
    unfold accumulator_ok. fields.
    destruct d; cbn; lia.
Qed.

Lemma initial_ok : accumulator_ok initial.
Proof. unfold accumulator_ok; cbn; lia. Qed.

Lemma run_edges_keeps_ok (es : list edge) :
  forall g, accumulator_ok g -> accumulator_ok (run_edges es g).
Proof.
  induction es as [|e es IH]; intros g Hok; [exact Hok|].
  apply IH. apply read_bit_keeps_ok. exact Hok.
Qed.

(** ** A burst of edges *)

Lemma firstn_room (A : Type) (p : Z) (x : A) (l : list A) :
  0 <= p < 24 ->
  firstn (Z.to_nat (24 - p)) (x :: l)
  = x :: firstn (Z.to_nat (24 - (p + 1))) l.
Proof.
  intros Hp.
  replace (Z.to_nat (24 - p)) with (S (Z.to_nat (24 - (p + 1)))) by lia.
  reflexivity.
Qed.

(** Edges that follow each other closely fill the accumulator from where it
    stands, up to 24 bits. *)
Lemma run_close_together (es : list edge) :
  forall g,
    accumulator_ok g ->
    close_together (last_interrupt_time g) es ->
    bit_counter (run_edges es g)
    = Z.min 24 (bit_counter g + Z.of_nat (List.length es))
    /\ caliper_raw_data (run_edges es g)
       = caliper_raw_data g
         + 2 ^ bit_counter g
           * bits_value (firstn (Z.to_nat (24 - bit_counter g))
                                (map edge_data es)).
Proof.
  induction es as [|e es IH]; intros g Hok Hclose.
  - destruct Hok as [Hbc _]. cbn [run_edges fold_left List.length map].
    rewrite firstn_nil. cbn [bits_value]. split; lia.
  - destruct Hclose as [Hgap Hrest].
    pose proof (read_bit_keeps_ok (edge_time e) (edge_data e) g Hok) as Hok'.
    change (run_edges (e :: es) g)
      with (run_edges es (read_bit (edge_time e) (edge_data e) g)).
    specialize (IH (read_bit (edge_time e) (edge_data e) g) Hok').
    rewrite read_bit_no_reset in IH by assumption. fields_in_all.
    destruct (IH Hrest) as [IHbc IHraw]. clear IH.
    rewrite read_bit_no_reset by assumption.
    rewrite IHbc, IHraw. clear IHbc IHraw.
    destruct Hok as [Hbc Hraw].
    cbn [List.length map]. rewrite Nat2Z.inj_succ.
    destruct (Z.ltb_spec (bit_counter g) 24) as [Hlt|Hge].
    + rewrite firstn_room by lia. cbn [bits_value].
      change (bit_counter g + 1) with (Z.succ (bit_counter g)).
      rewrite Z.pow_succ_r by lia. split; [lia|ring].
    + replace (Z.to_nat (24 - bit_counter g)) with O by lia.
      cbn [firstn]. split; [lia|reflexivity].
Qed.

(** An edge that finds the timeout exceeded, and close followers: what was
    accumulated before does not show in the result. *)
Lemma run_fresh_packet (g : globals) (e : edge) (es : list edge) :
  PACKET_TIMEOUT_US < elapsed (last_interrupt_time g) (edge_time e) ->
  close_together (edge_time e) es ->
  bit_counter (run_edges (e :: es) g)
  = Z.min 24 (Z.of_nat (List.length (e :: es)))
  /\ caliper_raw_data (run_edges (e :: es) g) = frame_of (e :: es).
Proof.
  intros Hgap Hclose.
  change (run_edges (e :: es) g)
    with (run_edges es (read_bit (edge_time e) (edge_data e) g)).
  rewrite read_bit_reset by assumption.
  match goal with |- context [run_edges es ?g1] =>
    destruct (run_close_together es g1) as [Hbc Hraw] end.
  - unfold accumulator_ok. fields. destruct (edge_data e); cbn; lia.
  - exact Hclose.
  - fields_in_all. rewrite Hbc, Hraw. unfold frame_of.
    cbn [List.length map]. rewrite Nat2Z.inj_succ.
    change 24%nat with (S 23). rewrite firstn_cons. cbn [bits_value].
    change (Z.to_nat (24 - 1)) with 23%nat.
    split; [lia|]. change (2 ^ 1) with 2. ring.
Qed.

(** An edge that finds 24 bits in the accumulator and no timeout only
    records its time and raises the flag. *)
Lemma read_bit_full (t : Z) (d : bool) (g : globals) :
  bit_counter g = 24 ->
  elapsed (last_interrupt_time g) t <= PACKET_TIMEOUT_US ->
  read_bit t d g = set_new_packet_ready true (set_last_interrupt_time t g).
Proof.
  intros Hbc Hgap. unfold read_bit, store_bit.
  destruct (Z.gtb_spec (elapsed (last_interrupt_time g) t) PACKET_TIMEOUT_US)
    as [Hgt|_]; [lia|].
  fields. rewrite Hbc. reflexivity.
Qed.

Lemma elapsed_wraps (last_time gap : Z) :
  0 <= gap < 2 ^ 32 ->
  elapsed last_time (uint32_t (last_time + gap)) = gap.
Proof.
  intros Hgap. unfold elapsed, uint32_t.
  rewrite Zminus_mod_idemp_l.
  replace (last_time + gap - last_time) with gap by ring.
  apply Z.mod_small. exact Hgap.
Qed.

(** ** The claims about the bit sampler *)

(** C2, as amended: the timeout test is strict.  A burst of edges, each at
    most 5000 us after the one before, accumulates into one frame (its
    first 24 bits, least significant first), whatever the total time, and
    this also when the burst is the first thing the sampler sees.  When the
    first edge of the burst comes more than 5000 us after the previous edge,
    nothing accumulated before it shows in the result: the count restarts
    with that edge. *)
Theorem C2_framing (g : globals) (e : edge) (es : list edge)
  (Hgap : PACKET_TIMEOUT_US < elapsed (last_interrupt_time g) (edge_time e))
  (Hclose : close_together (edge_time e) es) :
  (bit_counter (run_edges (e :: es) initial)
   = Z.min 24 (Z.of_nat (List.length (e :: es)))
   /\ caliper_raw_data (run_edges (e :: es) initial) = frame_of (e :: es))
  /\ (bit_counter (run_edges (e :: es) g)
      = Z.min 24 (Z.of_nat (List.length (e :: es)))
      /\ caliper_raw_data (run_edges (e :: es) g) = frame_of (e :: es)).
Proof.
  split; [|apply run_fresh_packet; assumption].
  destruct (Z.le_gt_cases (elapsed (last_interrupt_time initial) (edge_time e))
                          PACKET_TIMEOUT_US) as [Hle|Hgt].
  - destruct (run_close_together (e :: es) initial initial_ok) as [Hbc Hraw].
    + split; assumption.
    + rewrite Hbc, Hraw. unfold frame_of. cbn [initial bit_counter
        caliper_raw_data]. change (Z.to_nat (24 - 0)) with 24%nat.
      change (2 ^ 0) with 1. split; [reflexivity|ring].
  - apply run_fresh_packet; assumption.
Qed.

Lemma C2_framing_witness :
  let g := run_edges [mkEdge 100 true; mkEdge 200 true] initial in
  let e := mkEdge 6000 false in
  let es := [mkEdge 6100 true; mkEdge 11100 true] in
  (caliper_raw_data g = 3 /\ bit_counter g = 2)
  /\ (bit_counter (run_edges (e :: es) initial) = 3
      /\ caliper_raw_data (run_edges (e :: es) initial) = 6)
  /\ (bit_counter (run_edges (e :: es) g) = 3
      /\ caliper_raw_data (run_edges (e :: es) g) = 6).
Proof.
  intros g e es. split; [concrete|].
  apply (C2_framing g e es); concrete.
Defined.

(** C2 as stated fails for a gap of exactly 5000 us: the edge at 15000,
    5000 us after the edge at 10000, does not restart the count.  The claim
    wants the accumulator to hold that edge's bit alone (value 0, count 1);
    it holds both bits (value 1, count 2). *)
Lemma C2_gap_of_exactly_5000 :
  let g := read_bit 10000 true initial in
  5000 <= elapsed (last_interrupt_time g) 15000
  /\ caliper_raw_data (read_bit 15000 false g) = 1
  /\ bit_counter (read_bit 15000 false g) = 2
  /\ caliper_raw_data (read_bit 15000 false g)
     <> frame_of [mkEdge 15000 false]
  /\ bit_counter (read_bit 15000 false g) <> 1.
Proof. concrete. Qed.

(** C4: after any number of calls of [read_bit] from the initial state,
    [bit_counter] is between 0 and 24 and [caliper_raw_data] has no bit set
    at position [bit_counter] or above. *)
Theorem C4_accumulator_invariant (es : list edge) (i : Z)
  (Hi : bit_counter (run_edges es initial) <= i) :
  0 <= bit_counter (run_edges es initial) <= 24
  /\ Z.testbit (caliper_raw_data (run_edges es initial)) i = false.
Proof.
  destruct (run_edges_keeps_ok es initial initial_ok) as [Hbc Hraw].
  split; [exact Hbc|].
  apply (high_bits_clear _ (bit_counter (run_edges es initial))); lia.
Qed.

Lemma C4_accumulator_invariant_witness :
  let es := [mkEdge 100 true; mkEdge 200 false; mkEdge 300 true] in
  bit_counter (run_edges es initial) <= 3
  /\ 0 <= bit_counter (run_edges es initial) <= 24
  /\ Z.testbit (caliper_raw_data (run_edges es initial)) 3 = false.
Proof.
  intros es. split; [concrete|].
  apply (C4_accumulator_invariant es 3). concrete.
Defined.

(** C7: the timeout test sees the true gap between two edges whenever that
    gap is below 2^32 us, also when the timer has wrapped in between (the
    later timestamp is then the smaller number): [read_bit] restarts the
    packet exactly when the true gap exceeds 5000 us. *)
Theorem C7_wraparound (g : globals) (gap : Z) (d : bool)
  (Hgap : 0 <= gap < 2 ^ 32) :
  let t := uint32_t (last_interrupt_time g + gap) in
  elapsed (last_interrupt_time g) t = gap
  /\ read_bit t d g
     = store_bit t d (if gap >? PACKET_TIMEOUT_US then start_packet g else g).
Proof.
  intros t. pose proof (elapsed_wraps (last_interrupt_time g) gap Hgap) as He.
  fold t in He. split; [exact He|].
  unfold read_bit. rewrite He. reflexivity.
Qed.

Lemma C7_wraparound_witness :
  let g := set_last_interrupt_time 4294967196
             (run_edges [mkEdge 4294967096 true] initial) in
  (0 <= 300 < 2 ^ 32 /\ 0 <= 6000 < 2 ^ 32)
  /\ (uint32_t (last_interrupt_time g + 300) = 200
      /\ bit_counter (read_bit 200 true g) = 2
      /\ caliper_raw_data (read_bit 200 true g) = 3)
  /\ (uint32_t (last_interrupt_time g + 6000) = 5900
      /\ bit_counter (read_bit 5900 true g) = 1
      /\ caliper_raw_data (read_bit 5900 true g) = 1).
Proof.
  intros g. split; [concrete|]. split.
  - destruct (C7_wraparound g 300 true ltac:(concrete)) as [_ H].
    change (uint32_t (last_interrupt_time g + 300)) with 200 in *.
    rewrite H. concrete.
  - destruct (C7_wraparound g 6000 true ltac:(concrete)) as [_ H].
    change (uint32_t (last_interrupt_time g + 6000)) with 5900 in *.
    rewrite H. concrete.
Defined.

(** ** The fields of a frame *)

Lemma low_20_bits (data_copy : Z) :
  Z.land data_copy 0x0FFFFF = data_copy mod 2 ^ 20.
Proof. change 0x0FFFFF with (Z.ones 20). apply Z.land_ones. lia. Qed.

Lemma bitRead_testbit (value bit : Z) :
  0 <= bit -> truthy (bitRead value bit) = Z.testbit value bit.
Proof.
  intros Hbit. unfold truthy, bitRead.
  change 1 with (Z.ones 1). rewrite Z.land_ones by lia.
  change (2 ^ 1) with 2. rewrite <- Z.bit0_mod, Z.shiftr_spec by lia.
  rewrite Z.add_0_l. destruct (Z.testbit value bit); reflexivity.
Qed.

Lemma flags_of_range (data_copy : Z) : 0 <= flags_of data_copy < 16.
Proof.
  unfold flags_of. change 0x0F with (Z.ones 4).
  rewrite Z.land_ones by lia. change (2 ^ 4) with 16.
  pose proof (Z.mod_pos_bound (Z.shiftr data_copy 20) 16 ltac:(lia)) as H.
  rewrite uint8_small by (change (2 ^ 8) with 256; lia). exact H.
Qed.

Lemma flags_of_testbit (data_copy k : Z) :
  0 <= k < 4 -> Z.testbit (flags_of data_copy) k = Z.testbit data_copy (k + 20).
Proof.
  intros Hk. pose proof (flags_of_range data_copy) as Hr. revert Hr.
  unfold flags_of. change 0x0F with (Z.ones 4).
  rewrite Z.land_ones by lia. change (2 ^ 4) with 16. intros Hr.
  pose proof (Z.mod_pos_bound (Z.shiftr data_copy 20) 16 ltac:(lia)) as H.
  rewrite uint8_small by (change (2 ^ 8) with 256; lia).
  change 16 with (2 ^ 4). rewrite Z.mod_pow2_bits_low by lia.
  apply Z.shiftr_spec. lia.
Qed.

Lemma long_small (x : Z) : - 2 ^ 31 <= x < 2 ^ 31 -> long x = x.
Proof.
  intros H. unfold long.
  rewrite Z.mod_small; change (2 ^ 31) with 2147483648 in *;
    change (2 ^ 32) with 4294967296; lia.
Qed.

(** Mask, shift, multiplication and [constrain], read as arithmetic. *)
Lemma integerMeasurement_hundredths (data_copy : Z) :
  integerMeasurement_of data_copy = hundredths data_copy.
Proof.
  unfold integerMeasurement_of, hundredths.
  rewrite low_20_bits, bitRead_testbit by lia.
  rewrite (flags_of_testbit data_copy 0) by lia. change (0 + 20) with 20.
  pose proof (Z.mod_pos_bound data_copy (2 ^ 20) ltac:(lia)) as Hm.
  change (2 ^ 20) with 1048576 in *.
  set (magnitude := data_copy mod 1048576) in *.
  rewrite (long_small magnitude)
    by (change (2 ^ 31) with 2147483648; lia).
  unfold constrain.
  destruct (Z.testbit data_copy 20);
    rewrite long_small by (change (2 ^ 31) with 2147483648; lia);
    [destruct (Z.ltb_spec (magnitude * -1) (-15000));
       [|destruct (Z.gtb_spec (magnitude * -1) 15000)]
    |destruct (Z.ltb_spec (magnitude * 1) (-15000));
       [|destruct (Z.gtb_spec (magnitude * 1) 15000)]]; lia.
Qed.

Lemma hundredths_range (data_copy : Z) :
  -15000 <= hundredths data_copy <= 15000.
Proof. unfold hundredths. lia. Qed.

Lemma holds_from_spec (f : Z -> bool) (n : nat) :
  forall c x,
    holds_from f c n = true -> c <= x < c + Z.of_nat n -> f x = true.
Proof.
  induction n as [|k IH]; intros c x H Hx; [lia|].
  cbn [holds_from] in H. apply andb_prop in H. destruct H as [Hc Hrest].
  destruct (Z.eq_dec x c) as [->|Hne]; [exact Hc|].
  apply (IH (c + 1)); [exact Hrest|lia].
Qed.

(** ** The floating-point results, value by value *)

Lemma all_millimeters_ok :
  holds_from millimeters_ok (-15000) (Z.to_nat 30001) = true.
Proof. vm_compute. reflexivity. Qed.

Lemma all_inches_ok :
  holds_from inches_ok (-15000) (Z.to_nat 30001) = true.
Proof. vm_compute. reflexivity. Qed.

Lemma close_to_bool_spec (k : positive) (x : spec_float) (c : Z)
  (d : positive) :
  close_to_bool k x c d = true -> close_to k x (c # d).
Proof.
  unfold close_to_bool, close_to.
  destruct x as [s| | |s m [|p|p]]; try discriminate; intros H.
  - apply Z.eqb_eq in H. subst c. split; [reflexivity|].
    unfold SF2Q, Qle, Qabs, Qminus, Qplus, Qopp, Qmult; cbn. lia.
  - apply Z.leb_le in H. split; [reflexivity|].
    unfold SF2Q, Qle, Qabs, Qminus, Qplus, Qopp, Qmult.
    cbn [Qnum Qden]. rewrite !Pos2Z.inj_mul, Z.mul_1_r.
    set (sm := cond_Zopp s (Z.pos m)) in *.
    replace (sm * Z.pos d + - c * Z.pos (2 ^ p))
      with (sm * Z.pos d - c * Z.pos (2 ^ p)) by ring.
    set (a := Z.abs (sm * Z.pos d - c * Z.pos (2 ^ p))) in *.
    pose proof (Pos2Z.is_pos d). nia.
Qed.

Lemma between_bool_spec (lo hi : Z) (x : spec_float) :
  between_bool lo hi x = true ->
  (inject_Z lo <= SF2Q x <= inject_Z hi)%Q.
Proof.
  unfold between_bool.
  destruct x as [s| | |s m [|p|p]]; try discriminate; intros H;
    apply andb_prop in H; destruct H as [Hlo Hhi];
    apply Z.leb_le in Hlo, Hhi;
    unfold SF2Q, Qle, inject_Z; cbn [Qnum Qden]; lia.
Qed.

Lemma millimeters_close (c : Z) :
  -15000 <= c <= 15000 ->
  close_to 24 (float_of_hundredths c) (c # 100)
  /\ (-150 <= SF2Q (float_of_hundredths c) <= 150)%Q.
Proof.
  intros Hc.
  pose proof (holds_from_spec _ _ _ c all_millimeters_ok) as H.
  specialize (H ltac:(lia)).
  unfold millimeters_ok in H.
  apply andb_prop in H. destruct H as [Hclose Hbetween].
  split; [apply close_to_bool_spec; exact Hclose|].
  exact (between_bool_spec (-150) 150 _ Hbetween).
Qed.

Lemma inches_close (c : Z) :
  -15000 <= c <= 15000 ->
  close_to 23 (to_inches (float_of_hundredths c)) (c # 2540).
Proof.
  intros Hc. apply close_to_bool_spec.
  apply (holds_from_spec _ _ _ c all_inches_ok). lia.
Qed.

Lemma millimeters_of_hundredths (data_copy : Z) :
  millimeters_of data_copy = float_of_hundredths (hundredths data_copy).
Proof.
  unfold millimeters_of, float_of_hundredths.
  rewrite integerMeasurement_hundredths. reflexivity.
Qed.

(** ** What the decoder writes *)

Lemma print_binary_from_appends (value : Z) (n : nat) :
  forall g,
    print_binary_from value n g
    = mkGlobals (caliper_raw_data g) (bit_counter g) (new_packet_ready g)
                (last_interrupt_time g) (measurement g) (inch g)
                (Serial g ++ binary_text value n).
Proof.
  induction n as [|i IH]; intros g; cbn [print_binary_from binary_text].
  - rewrite app_nil_r. destruct g; reflexivity.
  - rewrite IH. unfold Serial_print.
    destruct (Z.of_nat i mod 4 =? 0); fields;
      rewrite <- ?app_assoc; reflexivity.
Qed.

Lemma set_inch_mk raw bc rdy last m i out (v : bool) :
  set_inch v (mkGlobals raw bc rdy last m i out)
  = mkGlobals raw bc rdy last m v out.
Proof. reflexivity. Qed.

Lemma set_measurement_mk raw bc rdy last m i out (v : spec_float) :
  set_measurement v (mkGlobals raw bc rdy last m i out)
  = mkGlobals raw bc rdy last v i out.
Proof. reflexivity. Qed.

Lemma Serial_print_mk raw bc rdy last m i out (e : serial_event) :
  Serial_print e (mkGlobals raw bc rdy last m i out)
  = mkGlobals raw bc rdy last m i (out ++ [e]).
Proof. reflexivity. Qed.

Lemma print_binary_from_mk raw bc rdy last m i out (value : Z) (n : nat) :
  print_binary_from value n (mkGlobals raw bc rdy last m i out)
  = mkGlobals raw bc rdy last m i (out ++ binary_text value n).
Proof. apply print_binary_from_appends. Qed.

Lemma handleData_writes (data_copy : Z) (g : globals) :
  handleData data_copy g
  = mkGlobals (caliper_raw_data g) (bit_counter g) (new_packet_ready g)
              (last_interrupt_time g)
              (if Z.testbit data_copy 23
               then to_inches (millimeters_of data_copy)
               else millimeters_of data_copy)
              (Z.testbit data_copy 23)
              (Serial g
               ++ print_str "Binary data: "
               :: binary_text data_copy 24
               ++ print_str " | Value: "
               :: print_float (if Z.testbit data_copy 23
                               then to_inches (millimeters_of data_copy)
                               else millimeters_of data_copy) 2
               :: print_str " mm"
               :: print_str " | Flags: "
               :: binary_text (flags_of data_copy) 4
               ++ [println]).
Proof.
  destruct g as [raw bc rdy last m i out].
  unfold handleData.
  rewrite bitRead_testbit by lia.
  rewrite (flags_of_testbit data_copy 3) by lia. change (3 + 20) with 23.
  rewrite set_inch_mk, set_measurement_mk. cbn [inch measurement].
  destruct (Z.testbit data_copy 23); rewrite ?set_measurement_mk;
    unfold printResultToOutput, print_binary;
    rewrite Serial_print_mk, print_binary_from_mk, Serial_print_mk;
    cbn [measurement];
    rewrite !Serial_print_mk, print_binary_from_mk, Serial_print_mk;
    cbn [caliper_raw_data bit_counter new_packet_ready last_interrupt_time
         Serial];
    repeat (rewrite <- app_assoc; cbn [app]); reflexivity.
Qed.

(** The variables [handleData] assigns and the text it prints depend on
    its argument alone; everything else is left as it was. *)
Lemma handleData_frame (data_copy : Z) (g : globals) :
  handleData data_copy g
  = mkGlobals (caliper_raw_data g) (bit_counter g) (new_packet_ready g)
              (last_interrupt_time g)
              (measurement (handleData data_copy initial))
              (inch (handleData data_copy initial))
              (Serial g ++ diagnostic_line data_copy).
Proof.
  unfold diagnostic_line.
  rewrite (handleData_writes data_copy g),
          (handleData_writes data_copy initial).
  reflexivity.
Qed.

Lemma handleData_measurement (data_copy : Z) (g : globals) :
  measurement (handleData data_copy g)
  = if Z.testbit data_copy 23
    then to_inches (float_of_hundredths (hundredths data_copy))
    else float_of_hundredths (hundredths data_copy).
Proof.
  rewrite handleData_writes, millimeters_of_hundredths. reflexivity.
Qed.

Lemma handleData_inch (data_copy : Z) (g : globals) :
  inch (handleData data_copy g) = Z.testbit data_copy 23.
Proof. rewrite handleData_writes. reflexivity. Qed.

(** ** Encoded frames *)

Lemma encode_fields (magnitude : Z) (sign unit : bool) :
  0 <= magnitude < 2 ^ 20 ->
  encode magnitude sign unit mod 2 ^ 20 = magnitude
  /\ Z.testbit (encode magnitude sign unit) 20 = sign
  /\ Z.testbit (encode magnitude sign unit) 23 = unit.
Proof.
  intros Hm. unfold encode. rewrite !Z.shiftl_mul_pow2 by lia.
  rewrite !Z.testbit_odd, !Z.shiftr_div_pow2 by lia.
  change (2 ^ 20) with 1048576 in *. change (2 ^ 23) with 8388608.
  set (frame := magnitude + Z.b2z sign * 1048576 + Z.b2z unit * 8388608).
  assert (frame mod 1048576 = magnitude) as Hlow.
  { symmetry. apply (Z.mod_unique_pos _ _ (Z.b2z sign + 8 * Z.b2z unit));
      subst frame; lia. }
  assert (frame / 1048576 = Z.b2z sign + 8 * Z.b2z unit) as H20.
  { symmetry. apply (Z.div_unique_pos _ _ _ magnitude); subst frame; lia. }
  assert (frame / 8388608 = Z.b2z unit) as H23.
  { symmetry.
    apply (Z.div_unique_pos _ _ _ (magnitude + Z.b2z sign * 1048576));
      subst frame; destruct sign; cbn [Z.b2z]; lia. }
  rewrite Hlow, H20, H23. destruct sign, unit; repeat split; reflexivity.
Qed.

Lemma hundredths_encode (magnitude : Z) (sign unit : bool) :
  0 <= magnitude <= 15000 ->
  hundredths (encode magnitude sign unit)
  = if sign then - magnitude else magnitude.
Proof.
  intros Hm.
  destruct (encode_fields magnitude sign unit) as (Hlow & Hsign & _).
  { change (2 ^ 20) with 1048576. lia. }
  unfold hundredths. rewrite Hlow, Hsign. destruct sign; lia.
Qed.

(** Bits 21 and 22, and no others, set. *)
Lemma reserved_mask_bits (i : Z) :
  i <> 21 -> i <> 22 -> Z.testbit 0x600000 i = false.
Proof.
  intros H21 H22. destruct (Z.neg_nonneg_cases i) as [Hneg|Hpos].
  - apply Z.testbit_neg_r. exact Hneg.
  - change 0x600000 with (Z.lor (2 ^ 21) (2 ^ 22)).
    rewrite Z.lor_spec, !Z.pow2_bits_eqb by lia.
    destruct (Z.eqb_spec 21 i), (Z.eqb_spec 22 i);
      first [lia | reflexivity].
Qed.

Lemma same_low_20_bits (f1 f2 : Z) :
  (forall i, i <> 21 -> i <> 22 -> Z.testbit f1 i = Z.testbit f2 i) ->
  f1 mod 2 ^ 20 = f2 mod 2 ^ 20.
Proof.
  intros H. rewrite <- !low_20_bits. apply Z.bits_inj'. intros i Hi.
  rewrite !Z.land_spec.
  destruct (Z.eq_dec i 21) as [->|H21];
    [change (Z.testbit 0x0FFFFF 21) with false;
     rewrite !andb_false_r; reflexivity|].
  destruct (Z.eq_dec i 22) as [->|H22];
    [change (Z.testbit 0x0FFFFF 22) with false;
     rewrite !andb_false_r; reflexivity|].
  rewrite (H i H21 H22). reflexivity.
Qed.

(** ** The claims about the packet decoder *)

(** C1: for every 24-bit frame, [handleData] constrains the signed value of
    the low 20 bits to [-15000, 15000] hundredths of a millimeter; the value
    it assigns to [measurement] before the conversion to inches is that
    number divided by 100, rounded to [float], a finite number between
    -150 and 150.  There is no input on which it does anything else. *)
Theorem C1_decoder_range (data_copy : Z) (g : globals)
  (Hframe : 0 <= data_copy < 2 ^ 24) :
  integerMeasurement_of data_copy = hundredths data_copy
  /\ -15000 <= integerMeasurement_of data_copy <= 15000
  /\ close_to 24 (millimeters_of data_copy)
              (integerMeasurement_of data_copy # 100)
  /\ (-150 <= SF2Q (millimeters_of data_copy) <= 150)%Q
  /\ measurement (handleData data_copy g)
     = if inch (handleData data_copy g)
       then to_inches (millimeters_of data_copy)
       else millimeters_of data_copy.
Proof.
  rewrite handleData_measurement, handleData_inch,
          millimeters_of_hundredths, integerMeasurement_hundredths.
  pose proof (hundredths_range data_copy) as Hr.
  destruct (millimeters_close (hundredths data_copy) Hr) as [Hclose Hbounds].
  split; [reflexivity|]. split; [exact Hr|]. split; [exact Hclose|].
  split; [exact Hbounds|reflexivity].
Qed.

Lemma C1_decoder_range_witness :
  0 <= 0x0FFFFF < 2 ^ 24
  /\ integerMeasurement_of 0x0FFFFF = 15000
  /\ millimeters_of 0x0FFFFF = S754_finite false 9830400 (-16)
  /\ (SF2Q (millimeters_of 0x0FFFFF) == 150)%Q.
Proof.
  split; [concrete|].
  destruct (C1_decoder_range 0x0FFFFF initial ltac:(concrete))
    as (Hint & _ & _ & _ & _).
  rewrite Hint. concrete.
Defined.

Lemma binary_text_no_println (value : Z) (n : nat) :
  ~ In println (binary_text value n).
Proof.
  induction n as [|i IH]; cbn [binary_text]; [intros []|].
  intros [H|H]; [discriminate|].
  destruct (Z.of_nat i mod 4 =? 0); cbn [app] in H;
    [destruct H as [H|H]; [discriminate|]|]; exact (IH H).
Qed.

(** C5, as amended: [handleData] returns nothing; it assigns the variables
    [measurement] and [inch] and prints one line on [Serial].  The two
    values assigned and the line printed are determined by the frame alone,
    whatever the variables held before; the line is appended to what was
    printed earlier; the variables of the bit sampler are not touched.
    The line is: "Binary data: ", the 24 bits of the frame, " | Value: ",
    the value just assigned to [measurement] with 2 decimals, " mm",
    " | Flags: ", the 4 bits of the flag nibble, and one end of line, which
    is the only one. *)
Theorem C5_decoder_effects (data_copy : Z) (g1 g2 : globals) :
  measurement (handleData data_copy g1) = measurement (handleData data_copy g2)
  /\ inch (handleData data_copy g1) = inch (handleData data_copy g2)
  /\ Serial (handleData data_copy g1) = Serial g1 ++ diagnostic_line data_copy
  /\ diagnostic_line data_copy <> []
  /\ caliper_raw_data (handleData data_copy g1) = caliper_raw_data g1
  /\ bit_counter (handleData data_copy g1) = bit_counter g1
  /\ new_packet_ready (handleData data_copy g1) = new_packet_ready g1
  /\ last_interrupt_time (handleData data_copy g1) = last_interrupt_time g1
  /\ diagnostic_line data_copy
     = print_str "Binary data: "
       :: binary_text data_copy 24
       ++ print_str " | Value: "
       :: print_float (measurement (handleData data_copy g1)) 2
       :: print_str " mm"
       :: print_str " | Flags: "
       :: binary_text (flags_of data_copy) 4
       ++ [println]
  /\ ~ In println (binary_text data_copy 24)
  /\ ~ In println (binary_text (flags_of data_copy) 4).
Proof.
  split; [rewrite !handleData_measurement; reflexivity|].
  split; [rewrite !handleData_inch; reflexivity|].
  split; [rewrite (handleData_frame data_copy g1); reflexivity|].
  split.
  { unfold diagnostic_line. rewrite handleData_writes.
    cbn [Serial initial app]. discriminate. }
  split; [rewrite (handleData_frame data_copy g1); reflexivity|].
  split; [rewrite (handleData_frame data_copy g1); reflexivity|].
  split; [rewrite (handleData_frame data_copy g1); reflexivity|].
  split; [rewrite (handleData_frame data_copy g1); reflexivity|].
  split.
  { rewrite handleData_measurement. unfold diagnostic_line.
    rewrite (handleData_writes data_copy initial), millimeters_of_hundredths.
    reflexivity. }
  split; apply binary_text_no_println.
Qed.

(** C5 as stated fails: decoding the frame 14942 changes the variable
    [measurement] and sends text to [Serial]. *)
Lemma C5_decoder_writes_and_prints :
  measurement (handleData 14942 initial) <> measurement initial
  /\ Serial (handleData 14942 initial) <> Serial initial
  /\ In (print_str "Binary data: ") (Serial (handleData 14942 initial)).
Proof.
  split; [|split]; [vm_compute; discriminate..|].
  vm_compute. left. reflexivity.
Qed.

(** C6, as amended: encoding a magnitude of at most 15000 hundredths of a
    millimeter with a sign bit and a unit bit, and decoding the frame, gives
    back the signed number of hundredths exactly and the unit flag; the
    value stored in [measurement] is that number of millimeters when the
    unit bit is clear (relative error at most 2^-24), and, when the unit bit
    is set, the same length in inches, the millimeters divided by 25.4
    (relative error at most 2^-23). *)
Theorem C6_round_trip (magnitude : Z) (sign unit : bool) (g : globals)
  (Hm : 0 <= magnitude <= 15000) :
  let frame := encode magnitude sign unit in
  let m := if sign then - magnitude else magnitude in
  integerMeasurement_of frame = m
  /\ inch (handleData frame g) = unit
  /\ (if unit
      then close_to 23 (measurement (handleData frame g)) (m # 2540)
      else close_to 24 (measurement (handleData frame g)) (m # 100)).
Proof.
  intros frame m.
  assert (hundredths frame = m) as Hh
    by (apply hundredths_encode; exact Hm).
  destruct (encode_fields magnitude sign unit) as (_ & _ & Hunit).
  { change (2 ^ 20) with 1048576. lia. }
  fold frame in Hunit.
  assert (-15000 <= m <= 15000) as Hr by (subst m; destruct sign; lia).
  rewrite handleData_measurement, handleData_inch,
          integerMeasurement_hundredths, Hh, Hunit.
  split; [reflexivity|]. split; [reflexivity|].
  destruct unit.
  - apply inches_close. exact Hr.
  - apply millimeters_close. exact Hr.
Qed.

Lemma C6_round_trip_witness :
  0 <= 14942 <= 15000
  /\ encode 14942 true true = 0x903A5E
  /\ integerMeasurement_of 0x903A5E = -14942
  /\ inch (handleData 0x903A5E initial) = true
  /\ close_to 23 (measurement (handleData 0x903A5E initial)) (-14942 # 2540).
Proof.
  split; [concrete|]. split; [concrete|].
  exact (C6_round_trip 14942 true true initial ltac:(concrete)).
Defined.

(** C6 as stated fails when the unit bit is set: 25.40 mm encoded with
    the unit bit decodes to 1.0 (inches), not to 25.4. *)
Lemma C6_unit_bit_set :
  let g := handleData (encode 2540 false true) initial in
  inch g = true
  /\ measurement g = S754_finite false 8388608 (-23)
  /\ (SF2Q (measurement g) == 1)%Q
  /\ ~ close_to 23 (measurement g) (2540 # 100).
Proof.
  repeat split; try (vm_compute; reflexivity).
  intros [_ H]. vm_compute in H. apply H. reflexivity.
Qed.

(** C8: two frames that agree on every bit but bits 21 and 22 give the
    same [measurement] and the same [inch]. *)
Theorem C8_reserved_bits (f1 f2 : Z) (g : globals)
  (Hsame : forall i, i <> 21 -> i <> 22 -> Z.testbit f1 i = Z.testbit f2 i) :
  measurement (handleData f1 g) = measurement (handleData f2 g)
  /\ inch (handleData f1 g) = inch (handleData f2 g).
Proof.
  rewrite !handleData_measurement, !handleData_inch.
  assert (hundredths f1 = hundredths f2) as Hh.
  { unfold hundredths.
    rewrite (same_low_20_bits f1 f2 Hsame), (Hsame 20) by lia. reflexivity. }
  rewrite Hh, (Hsame 23) by lia. split; reflexivity.
Qed.

Lemma C8_reserved_bits_witness :
  (forall i, i <> 21 -> i <> 22 ->
             Z.testbit 0x103A5E i = Z.testbit (Z.lxor 0x103A5E 0x600000) i)
  /\ Z.lxor 0x103A5E 0x600000 = 0x703A5E
  /\ measurement (handleData 0x103A5E initial)
     = measurement (handleData 0x703A5E initial)
  /\ inch (handleData 0x103A5E initial) = inch (handleData 0x703A5E initial).
Proof.
  assert (forall i, i <> 21 -> i <> 22 ->
            Z.testbit 0x103A5E i = Z.testbit (Z.lxor 0x103A5E 0x600000) i)
    as Hsame.
  { intros i H21 H22.
    rewrite Z.lxor_spec, (reserved_mask_bits i H21 H22), xorb_false_r.
    reflexivity. }
  split; [exact Hsame|]. split; [reflexivity|].
  exact (C8_reserved_bits 0x103A5E (Z.lxor 0x103A5E 0x600000) initial Hsame).
Defined.

(** ** The claims about the handoff *)

Lemma step_test_ready (g : globals) (earlier : list Z) :
  new_packet_ready g = true ->
  step (mkSystem g at_test earlier) Main = mkSystem g at_critical earlier.
Proof. intros H. unfold step. cbn [pc vars drained]. rewrite H. reflexivity. Qed.

Lemma step_test_idle (g : globals) (earlier : list Z) :
  new_packet_ready g = false ->
  step (mkSystem g at_test earlier) Main = mkSystem g at_test earlier.
Proof. intros H. unfold step. cbn [pc vars drained]. rewrite H. reflexivity. Qed.

Lemma step_critical (g : globals) (earlier : list Z) :
  step (mkSystem g at_critical earlier) Main
  = mkSystem (handleData (caliper_raw_data g) (set_new_packet_ready false g))
             at_test (earlier ++ [caliper_raw_data g]).
Proof. reflexivity. Qed.

Lemma step_edge (s : system) (t : Z) (d : bool) :
  step s (Edge t d) = mkSystem (read_bit t d (vars s)) (pc s) (drained s).
Proof. reflexivity. Qed.

(** Two steps of the main loop with no edge in between are one pass of
    [loop]. *)
Lemma loop_in_two_steps (g : globals) (earlier : list Z) :
  vars (run [Main; Main] (mkSystem g at_test earlier)) = loop g.
Proof.
  change (run [Main; Main] (mkSystem g at_test earlier))
    with (step (step (mkSystem g at_test earlier) Main) Main).
  unfold loop. destruct (new_packet_ready g) eqn:Hready.
  - rewrite step_test_ready, step_critical by exact Hready. reflexivity.
  - rewrite !step_test_idle by exact Hready. reflexivity.
Qed.

(** A pass of [loop] that finds the flag clear changes nothing; one that
    finds it set clears it and touches no other variable of the sampler. *)
Lemma loop_sampler_variables (g : globals) :
  caliper_raw_data (loop g) = caliper_raw_data g
  /\ bit_counter (loop g) = bit_counter g
  /\ last_interrupt_time (loop g) = last_interrupt_time g
  /\ new_packet_ready (loop g) = false.
Proof.
  unfold loop. destruct (new_packet_ready g) eqn:Hready.
  - rewrite handleData_frame. repeat split; reflexivity.
  - repeat split; try reflexivity. exact Hready.
Qed.

(** C10: an edge that arrives while [bit_counter] is 24, not later than the
    timeout after the edge before it, leaves [caliper_raw_data] and
    [bit_counter] as they are, records its time and sets
    [new_packet_ready], whatever the flag was; when the main loop had
    cleared the flag, its next pass hands the same value to [handleData]
    once more. *)
Theorem C10_edge_after_full_frame
  (g : globals) (t : Z) (d : bool) (earlier : list Z)
  (Hfull : bit_counter g = 24)
  (Hgap : elapsed (last_interrupt_time g) t <= PACKET_TIMEOUT_US) :
  caliper_raw_data (read_bit t d g) = caliper_raw_data g
  /\ bit_counter (read_bit t d g) = bit_counter g
  /\ last_interrupt_time (read_bit t d g) = t
  /\ new_packet_ready (read_bit t d g) = true
  /\ drained (run [Edge t d; Main; Main]
                  (mkSystem (set_new_packet_ready false g) at_test earlier))
     = earlier ++ [caliper_raw_data g].
Proof.
  split; [|split; [|split; [|split]]];
    try (rewrite (read_bit_full t d g Hfull Hgap); reflexivity).
  change (run [Edge t d; Main; Main]
              (mkSystem (set_new_packet_ready false g) at_test earlier))
    with (step (step (step (mkSystem (set_new_packet_ready false g)
                                     at_test earlier)
                           (Edge t d)) Main) Main).
  rewrite step_edge. cbn [vars pc drained].
  rewrite (read_bit_full t d (set_new_packet_ready false g)) by assumption.
  rewrite step_test_ready, step_critical by reflexivity. reflexivity.
Qed.

Lemma C10_edge_after_full_frame_witness :
  let g := mkGlobals 14942 24 false 12300 (S754_zero false) false [] in
  (bit_counter g = 24 /\ elapsed (last_interrupt_time g) 12400 <= 5000)
  /\ caliper_raw_data (read_bit 12400 true g) = 14942
  /\ bit_counter (read_bit 12400 true g) = 24
  /\ last_interrupt_time (read_bit 12400 true g) = 12400
  /\ new_packet_ready (read_bit 12400 true g) = true
  /\ drained (run [Edge 12400 true; Main; Main]
                  (mkSystem (set_new_packet_ready false g) at_test [14942]))
     = [14942; 14942].
Proof.
  intros g. split; [concrete|].
  exact (C10_edge_after_full_frame g 12400 true [14942]
           ltac:(concrete) ltac:(concrete)).
Defined.

(** C3 fails on the code.  The 24 edges of one frame (value 14942) arrive
    100 us apart; the main loop drains it; a 25th edge follows 100 us after
    the 24th; the main loop runs again.  No second frame has been received,
    yet [handleData] is called twice with 14942. *)
Theorem C3_same_frame_drained_twice :
  let evs := burst 10000 100 14942 24
             ++ [Main; Main; Edge 12400 false; Main; Main] in
  drained (run (burst 10000 100 14942 24 ++ [Main; Main]) boot) = [14942]
  /\ drained (run evs boot) = [14942; 14942]
  /\ bit_counter (vars (run evs boot)) = 24
  /\ caliper_raw_data (vars (run evs boot)) = 14942.
Proof. concrete. Qed.

(** C9 fails on the code.  A frame (value 14942) completes and is not
    drained before the first edge of the next frame arrives, 20 ms later.
    That edge clears the accumulator and stores its bit, and
    [new_packet_ready] is still set: the main loop drains the value 1, the
    first bit of a frame in progress, neither the previous frame nor
    nothing.  The same happens when the edge falls between the test of
    the flag and [noInterrupts()]. *)
Theorem C9_partial_frame_drained :
  let frame := burst 10000 100 14942 24 in
  caliper_raw_data (vars (run frame boot)) = 14942
  /\ new_packet_ready (vars (run frame boot)) = true
  /\ drained (run (frame ++ [Edge 32300 true; Main; Main]) boot) = [1]
  /\ bit_counter (vars (run (frame ++ [Edge 32300 true; Main; Main]) boot)) = 1
  /\ drained (run (frame ++ [Main; Edge 32300 true; Main]) boot) = [1].
Proof. concrete. Qed.

(** * Further properties of the sketch *)

(** ** The flag and the variables the interrupt routine leaves alone *)

Lemma read_bit_other_variables (t : Z) (d : bool) (g : globals) :
  measurement (read_bit t d g) = measurement g
  /\ inch (read_bit t d g) = inch g
  /\ Serial (read_bit t d g) = Serial g
  /\ (new_packet_ready g = true -> new_packet_ready (read_bit t d g) = true).
Proof.
  destruct g as [raw bc rdy last m i out].
  unfold read_bit, store_bit, start_packet. fields.
  destruct (elapsed last t >? PACKET_TIMEOUT_US); fields;
    [destruct d; fields; cbn; repeat split; trivial|].
  destruct (bc <? 24); fields;
    [destruct d; fields; destruct (uint8_t (bc + 1) =? 24)
    |destruct (bc =? 24)];
    fields; repeat split; trivial.
Qed.

(** X1: the interrupt routine never lowers [new_packet_ready]: once the
    flag is set, it stays set over any sequence of edges, timeouts
    included. *)
Theorem X1_flag_never_lowered_by_edges (es : list edge) (g : globals)
  (Hset : new_packet_ready g = true) :
  new_packet_ready (run_edges es g) = true.
Proof.
  revert g Hset. induction es as [|e es IH]; intros g Hset; [exact Hset|].
  apply IH. unfold on_edge.
  apply (read_bit_other_variables (edge_time e) (edge_data e) g). exact Hset.
Qed.

Lemma X1_flag_never_lowered_by_edges_witness :
  let g := set_new_packet_ready true initial in
  let es := [mkEdge 10000 true; mkEdge 10100 false; mkEdge 30000 true] in
  new_packet_ready g = true
  /\ bit_counter (run_edges es g) = 1
  /\ new_packet_ready (run_edges es g) = true.
Proof.
  intros g es. split; [reflexivity|]. split; [concrete|].
  apply (X1_flag_never_lowered_by_edges es g). reflexivity.
Defined.

(** ** When the flag is raised *)

Lemma run_close_together_flag (es : list edge) :
  forall g,
    accumulator_ok g ->
    close_together (last_interrupt_time g) es ->
    new_packet_ready (run_edges es g)
    = new_packet_ready g
      || (negb (Z.of_nat (List.length es) =? 0)
          && (24 <=? bit_counter g + Z.of_nat (List.length es))).
Proof.
  induction es as [|e es IH]; intros g Hok Hclose.
  - cbn. rewrite orb_false_r. reflexivity.
  - destruct Hclose as [Hgap Hrest].
    pose proof (read_bit_keeps_ok (edge_time e) (edge_data e) g Hok) as Hok'.
    change (run_edges (e :: es) g)
      with (run_edges es (read_bit (edge_time e) (edge_data e) g)).
    specialize (IH (read_bit (edge_time e) (edge_data e) g) Hok').
    rewrite read_bit_no_reset in IH by assumption. fields_in_all.
    rewrite read_bit_no_reset by assumption.
    rewrite (IH Hrest). clear IH. destruct Hok as [Hbc _].
    cbn [List.length]. rewrite Nat2Z.inj_succ.
    destruct (new_packet_ready g); [reflexivity|]. cbn [orb].
    destruct (Z.ltb_spec (bit_counter g) 24), (Z.leb_spec 23 (bit_counter g)),
      (Z.eqb_spec (Z.of_nat (List.length es)) 0),
      (Z.eqb_spec (Z.succ (Z.of_nat (List.length es))) 0),
      (Z.leb_spec 24 (bit_counter g + 1 + Z.of_nat (List.length es))),
      (Z.leb_spec 24 (bit_counter g + Z.of_nat (List.length es))),
      (Z.leb_spec 24 (bit_counter g + Z.succ (Z.of_nat (List.length es))));
      cbn; try reflexivity; lia.
Qed.

Lemma run_fresh_packet_flag (g : globals) (e : edge) (es : list edge) :
  PACKET_TIMEOUT_US < elapsed (last_interrupt_time g) (edge_time e) ->
  close_together (edge_time e) es ->
  new_packet_ready (run_edges (e :: es) g)
  = new_packet_ready g || (24 <=? Z.of_nat (List.length (e :: es))).
Proof.
  intros Hgap Hclose.
  change (run_edges (e :: es) g)
    with (run_edges es (read_bit (edge_time e) (edge_data e) g)).
  rewrite read_bit_reset by assumption.
  rewrite run_close_together_flag.
  - fields. cbn [List.length]. rewrite Nat2Z.inj_succ.
    destruct (new_packet_ready g); [reflexivity|]. cbn [orb].
    destruct (Z.eqb_spec (Z.of_nat (List.length es)) 0),
      (Z.leb_spec 24 (1 + Z.of_nat (List.length es))),
      (Z.leb_spec 24 (Z.succ (Z.of_nat (List.length es))));
      cbn; try reflexivity; lia.
  - unfold accumulator_ok. fields. destruct (edge_data e); cbn; lia.
  - exact Hclose.
Qed.

(** X2: after an edge that finds the timeout exceeded, the flag is raised
    by the 24th edge of the burst and by no earlier one: with the flag
    clear beforehand, it is set afterwards exactly when the burst has at
    least 24 edges. *)
Theorem X2_flag_raised_at_24th_edge (g : globals) (e : edge) (es : list edge)
  (Hgap : PACKET_TIMEOUT_US < elapsed (last_interrupt_time g) (edge_time e))
  (Hclose : close_together (edge_time e) es) :
  new_packet_ready (run_edges (e :: es) g)
  = new_packet_ready g || (24 <=? Z.of_nat (List.length (e :: es))).
Proof.
  apply run_fresh_packet_flag; assumption.
Qed.

Lemma X2_flag_raised_at_24th_edge_witness :
  let e := mkEdge 10000 true in
  (PACKET_TIMEOUT_US < elapsed (last_interrupt_time initial) (edge_time e)
   /\ close_together (edge_time e) (edges_of_frame 10100 100 0 22)
   /\ close_together (edge_time e) (edges_of_frame 10100 100 0 23))
  /\ new_packet_ready (run_edges (e :: edges_of_frame 10100 100 0 22) initial)
     = false
  /\ new_packet_ready (run_edges (e :: edges_of_frame 10100 100 0 23) initial)
     = true.
Proof.
  intros e. split; [concrete|]. split.
  - apply (X2_flag_raised_at_24th_edge initial e
             (edges_of_frame 10100 100 0 22)); concrete.
  - apply (X2_flag_raised_at_24th_edge initial e
             (edges_of_frame 10100 100 0 23)); concrete.
Defined.

(** ** From the wire to the decoder *)

Lemma frame_bits_length (n : nat) :
  forall frame, List.length (frame_bits frame n) = n.
Proof.
  induction n as [|k IH]; intros frame; [reflexivity|].
  cbn [frame_bits List.length]. rewrite IH. reflexivity.
Qed.

(** The bits spell the frame, least significant first. *)
Lemma frame_bits_value (n : nat) :
  forall frame, bits_value (frame_bits frame n) = frame mod 2 ^ Z.of_nat n.
Proof.
  induction n as [|k IH]; intros frame.
  - cbn. rewrite Z.mod_1_r. reflexivity.
  - cbn [frame_bits bits_value]. rewrite IH.
    rewrite Nat2Z.inj_succ, Z.pow_succ_r by lia.
    rewrite Z.rem_mul_r by lia.
    rewrite <- Z.bit0_odd, Z.bit0_mod. reflexivity.
Qed.

Lemma frame_of_frame_bits (es : list edge) (frame : Z) :
  0 <= frame < 2 ^ 24 ->
  map edge_data es = frame_bits frame 24 ->
  frame_of es = frame.
Proof.
  intros Hf Hbits. unfold frame_of. rewrite Hbits.
  rewrite firstn_all2 by (rewrite frame_bits_length; apply Nat.le_refl).
  rewrite frame_bits_value. apply Z.mod_small. exact Hf.
Qed.

(** A burst of exactly 24 edges after an edge that finds the timeout
    exceeded. *)
Lemma run_whole_frame (g : globals) (e : edge) (es : list edge) :
  List.length (e :: es) = 24%nat ->
  PACKET_TIMEOUT_US < elapsed (last_interrupt_time g) (edge_time e) ->
  close_together (edge_time e) es ->
  caliper_raw_data (run_edges (e :: es) g) = frame_of (e :: es)
  /\ bit_counter (run_edges (e :: es) g) = 24
  /\ new_packet_ready (run_edges (e :: es) g) = true.
Proof.
  intros Hlen Hgap Hclose.
  destruct (run_fresh_packet g e es Hgap Hclose) as [Hbc Hraw].
  rewrite Hraw, Hbc, run_fresh_packet_flag, Hlen by assumption.
  split; [reflexivity|]. split; [reflexivity|]. apply orb_true_r.
Qed.

(** X3: the 24 edges of a frame, sent least significant bit first with
    any spacing of at most 5000 us after a gap of more than 5000 us, leave
    exactly that frame in [caliper_raw_data], with [bit_counter] at 24 and
    the flag set, whatever the accumulator held before; the next pass of
    [loop] decodes that frame and clears the flag.  Gaps are taken as line
    59 takes them, by the difference of the timestamps on 32 bits (the true
    gap, when that is below 2^32 us). *)
Theorem X3_frame_from_wire_to_decoder
  (g : globals) (frame : Z) (e : edge) (es : list edge)
  (Hframe : 0 <= frame < 2 ^ 24)
  (Hbits : map edge_data (e :: es) = frame_bits frame 24)
  (Hgap : PACKET_TIMEOUT_US < elapsed (last_interrupt_time g) (edge_time e))
  (Hclose : close_together (edge_time e) es) :
  let g' := run_edges (e :: es) g in
  caliper_raw_data g' = frame
  /\ bit_counter g' = 24
  /\ new_packet_ready g' = true
  /\ loop g' = handleData frame (set_new_packet_ready false g').
Proof.
  intros g'.
  assert (List.length (e :: es) = 24%nat) as Hlen
    by (rewrite <- (length_map edge_data), Hbits; apply frame_bits_length).
  destruct (run_whole_frame g e es Hlen Hgap Hclose) as (Hraw & Hbc & Hready).
  rewrite (frame_of_frame_bits (e :: es) frame Hframe Hbits) in Hraw.
  fold g' in Hraw, Hbc, Hready.
  repeat split; try assumption.
  unfold loop. rewrite Hready, Hraw. reflexivity.
Qed.

Lemma X3_frame_from_wire_to_decoder_witness :
  let times := [4294967000; 4294967050; 4294967290; 134; 5134; 5135; 9000;
                9400; 9401; 9402; 9500; 14500; 14600; 14700; 19000; 19010;
                19020; 19030; 24030; 24031; 25000; 26000; 27000; 32000] in
  let g' := run_edges (edges_at times 0x903A5E) initial in
  (0 <= 0x903A5E < 2 ^ 24
   /\ map edge_data (edges_at times 0x903A5E) = frame_bits 0x903A5E 24
   /\ PACKET_TIMEOUT_US < elapsed (last_interrupt_time initial) 4294967000
   /\ close_together 4294967000 (edges_at (tl times) (0x903A5E / 2)))
  /\ caliper_raw_data g' = 0x903A5E
  /\ bit_counter g' = 24
  /\ new_packet_ready g' = true
  /\ loop g' = handleData 0x903A5E (set_new_packet_ready false g').
Proof.
  intros times g'. split; [concrete|].
  apply (X3_frame_from_wire_to_decoder initial 0x903A5E
           (mkEdge 4294967000 (Z.odd 0x903A5E))
           (edges_at (tl times) (0x903A5E / 2))); concrete.
Defined.

(** ** Frames that are not drained in time *)

Lemma read_bit_last (t : Z) (d : bool) (g : globals) :
  last_interrupt_time (read_bit t d g) = t.
Proof.
  destruct g as [raw bc rdy last m i out].
  unfold read_bit, store_bit, start_packet. fields.
  destruct (elapsed last t >? PACKET_TIMEOUT_US); fields;
    [destruct d; fields; cbn; reflexivity|].
  destruct (bc <? 24); fields;
    [destruct d; fields; destruct (uint8_t (bc + 1) =? 24)
    |destruct (bc =? 24)];
    reflexivity.
Qed.

Lemma run_edges_last (es : list edge) :
  forall g,
    last_interrupt_time (run_edges es g)
    = last_time (last_interrupt_time g) es.
Proof.
  induction es as [|e es IH]; intros g; [reflexivity|].
  change (run_edges (e :: es) g) with (run_edges es (on_edge g e)).
  rewrite IH. unfold on_edge. rewrite read_bit_last. reflexivity.
Qed.

Lemma run_app (evs1 evs2 : list event) (s : system) :
  run (evs1 ++ evs2) s = run evs2 (run evs1 s).
Proof. apply fold_left_app. Qed.

Lemma run_cons (ev : event) (evs : list event) (s : system) :
  run (ev :: evs) s = run evs (step s ev).
Proof. reflexivity. Qed.

Lemma run_events_of_edges (es : list edge) :
  forall s,
    run (map event_of_edge es) s
    = mkSystem (run_edges es (vars s)) (pc s) (drained s).
Proof.
  induction es as [|e es IH]; intros s; [destruct s; reflexivity|].
  change (run (map event_of_edge (e :: es)) s)
    with (run (map event_of_edge es) (step s (event_of_edge e))).
  rewrite IH. reflexivity.
Qed.

(** The events of the claims' bursts are the edges of a frame. *)
Lemma burst_edges (n : nat) :
  forall start period frame,
    burst start period frame n
    = map event_of_edge (edges_of_frame start period frame n).
Proof.
  induction n as [|k IH]; intros start period frame; [reflexivity|].
  cbn [burst edges_of_frame map]. rewrite IH. reflexivity.
Qed.

(** X4: frames are not queued.  A first frame of 24 edges is complete and
    flagged; when the 24 edges of a second frame arrive before the main
    loop has looked at the first, the next pass of [loop] hands the second
    frame to [handleData] and the first is never seen.  Within a frame the
    edges are at most 5000 us apart, with any spacing; each frame starts
    more than 5000 us after the edge before it; gaps are the differences
    of the timestamps on 32 bits, as line 59 takes them. *)
Theorem X4_undrained_frame_is_overwritten
  (s : system) (ea : edge) (esa : list edge) (eb : edge) (esb : list edge)
  (Hpc : pc s = at_test)
  (Hlen_a : List.length (ea :: esa) = 24%nat)
  (Hlen_b : List.length (eb :: esb) = 24%nat)
  (Hgap_a : PACKET_TIMEOUT_US
            < elapsed (last_interrupt_time (vars s)) (edge_time ea))
  (Hclose_a : close_together (edge_time ea) esa)
  (Hgap_b : PACKET_TIMEOUT_US
            < elapsed (last_time (edge_time ea) esa) (edge_time eb))
  (Hclose_b : close_together (edge_time eb) esb) :
  (caliper_raw_data (run_edges (ea :: esa) (vars s)) = frame_of (ea :: esa)
   /\ new_packet_ready (run_edges (ea :: esa) (vars s)) = true)
  /\ drained (run (map event_of_edge (ea :: esa)
                   ++ map event_of_edge (eb :: esb)
                   ++ [Main; Main]) s)
     = drained s ++ [frame_of (eb :: esb)].
Proof.
  destruct (run_whole_frame (vars s) ea esa Hlen_a Hgap_a Hclose_a)
    as (Hraw_a & _ & Hready_a).
  split; [split; assumption|].
  rewrite !run_app, !run_events_of_edges. cbn [vars pc drained].
  pose proof (run_edges_last (ea :: esa) (vars s)) as Hlast.
  change (last_time (last_interrupt_time (vars s)) (ea :: esa))
    with (last_time (edge_time ea) esa) in Hlast.
  revert Hlast. clear Hraw_a Hready_a.
  generalize (run_edges (ea :: esa) (vars s)). intros ga Hlast.
  rewrite <- Hlast in Hgap_b.
  destruct (run_whole_frame ga eb esb Hlen_b Hgap_b Hclose_b)
    as (Hraw & _ & Hready).
  revert Hraw Hready. generalize (run_edges (eb :: esb) ga).
  intros gb Hraw Hready.
  rewrite Hpc, !run_cons.
  rewrite step_test_ready, step_critical by exact Hready.
  cbn [run fold_left drained]. rewrite Hraw. reflexivity.
Qed.

Lemma X4_undrained_frame_is_overwritten_witness :
  let times_a := [10000; 10050; 10300; 10301; 15301; 15400; 15500; 15600;
                  15700; 15800; 15900; 16000; 16100; 16200; 16300; 16400;
                  16500; 16600; 16700; 16800; 16900; 17000; 17100; 17200] in
  let times_b := [4294967000; 4294967050; 4294967290; 134; 5134; 5135; 9000;
                  9400; 9401; 9402; 9500; 14500; 14600; 14700; 19000; 19010;
                  19020; 19030; 24030; 24031; 25000; 26000; 27000; 32000] in
  let a := edges_at times_a 14942 in
  let b := edges_at times_b 0x903A5E in
  (pc boot = at_test
   /\ List.length a = 24%nat /\ List.length b = 24%nat
   /\ PACKET_TIMEOUT_US < elapsed (last_interrupt_time (vars boot)) 10000
   /\ close_together 10000 (tl a)
   /\ PACKET_TIMEOUT_US < elapsed (last_time 10000 (tl a)) 4294967000
   /\ close_together 4294967000 (tl b))
  /\ (frame_of a = 14942 /\ frame_of b = 0x903A5E)
  /\ (caliper_raw_data (run_edges a (vars boot)) = frame_of a
      /\ new_packet_ready (run_edges a (vars boot)) = true)
  /\ drained (run (map event_of_edge a ++ map event_of_edge b
                   ++ [Main; Main]) boot)
     = drained boot ++ [frame_of b].
Proof.
  intros times_a times_b a b. split; [concrete|]. split; [concrete|].
  apply (X4_undrained_frame_is_overwritten boot
           (mkEdge 10000 (Z.odd 14942)) (tl a)
           (mkEdge 4294967000 (Z.odd 0x903A5E)) (tl b)); concrete.
Defined.

(** ** The main loop and the interrupt routine do not disturb each other *)

(** What [read_bit] does to its own variables does not depend on the
    others, which it hands on unchanged. *)
Lemma read_bit_frame (t : Z) (d : bool) (raw bc : Z) (rdy : bool) (last : Z)
  (m m' : spec_float) (i i' : bool) (out out' : list serial_event) :
  read_bit t d (mkGlobals raw bc rdy last m' i' out')
  = mkGlobals
      (caliper_raw_data (read_bit t d (mkGlobals raw bc rdy last m i out)))
      (bit_counter (read_bit t d (mkGlobals raw bc rdy last m i out)))
      (new_packet_ready (read_bit t d (mkGlobals raw bc rdy last m i out)))
      (last_interrupt_time (read_bit t d (mkGlobals raw bc rdy last m i out)))
      m' i' out'.
Proof.
  unfold read_bit, store_bit, start_packet. fields.
  destruct (elapsed last t >? PACKET_TIMEOUT_US); fields;
    [destruct d; fields; cbn; reflexivity|].
  destruct (bc <? 24); fields;
    [destruct d; fields; destruct (uint8_t (bc + 1) =? 24)
    |destruct (bc =? 24)];
    reflexivity.
Qed.

(** X5: an edge handled while [handleData] is at work changes nothing in
    its outcome: decoding and then handling the edge gives the same
    variables as handling the edge and then decoding. *)
Theorem X5_decoder_and_edge_commute
  (data_copy t : Z) (d : bool) (g : globals) :
  read_bit t d (handleData data_copy g)
  = handleData data_copy (read_bit t d g).
Proof.
  rewrite (handleData_frame data_copy g),
          (handleData_frame data_copy (read_bit t d g)).
  destruct (read_bit_other_variables t d g) as (_ & _ & Hs & _).
  rewrite Hs. clear Hs.
  generalize (measurement (handleData data_copy initial)).
  generalize (inch (handleData data_copy initial)).
  generalize (Serial g ++ diagnostic_line data_copy).
  intros out' i' m'. destruct g as [raw bc rdy last m i out].
  apply read_bit_frame.
Qed.

(** X6: with no edge in between, a second pass of [loop] does nothing: a
    frame is handed to [handleData] by one pass only. *)
Theorem X6_second_pass_does_nothing (g : globals) :
  loop (loop g) = loop g.
Proof.
  destruct (loop_sampler_variables g) as (_ & _ & _ & Hclear).
  unfold loop at 1. rewrite Hclear. reflexivity.
Qed.

(** ** More on the decoder *)

Lemma float_of_15000 :
  float_of_hundredths 15000 = S754_finite false 9830400 (-16)
  /\ float_of_hundredths (-15000) = S754_finite true 9830400 (-16).
Proof. split; vm_compute; reflexivity. Qed.

(** X7: saturation.  Every frame whose magnitude field is 15000 or more,
    with the unit bit clear, decodes to exactly 150.0 with the sign of bit
    20 (9830400 * 2^-16 = 150): nothing of the excess is left in the
    result. *)
Theorem X7_magnitude_saturates (data_copy : Z) (g : globals)
  (Hbig : 15000 <= data_copy mod 2 ^ 20)
  (Hmm : Z.testbit data_copy 23 = false) :
  measurement (handleData data_copy g)
  = S754_finite (Z.testbit data_copy 20) 9830400 (-16)
  /\ inch (handleData data_copy g) = false.
Proof.
  rewrite handleData_measurement, handleData_inch, Hmm.
  split; [|reflexivity].
  unfold hundredths. destruct float_of_15000 as [Hpos Hneg].
  destruct (Z.testbit data_copy 20).
  - replace (Z.max (-15000) (Z.min 15000 (- (data_copy mod 2 ^ 20))))
      with (-15000) by lia. exact Hneg.
  - replace (Z.max (-15000) (Z.min 15000 (data_copy mod 2 ^ 20)))
      with 15000 by lia. exact Hpos.
Qed.

Lemma X7_magnitude_saturates_witness :
  (15000 <= 0x1FFFFF mod 2 ^ 20 /\ Z.testbit 0x1FFFFF 23 = false)
  /\ measurement (handleData 0x1FFFFF initial)
     = S754_finite true 9830400 (-16)
  /\ inch (handleData 0x1FFFFF initial) = false.
Proof.
  split; [concrete|].
  apply (X7_magnitude_saturates 0x1FFFFF initial); concrete.
Defined.

(** The sign of a float only labels the result of rounding. *)
Lemma binary_round_aux_opp (prec emax : Z) (s : bool) (m e : Z) (l : location) :
  binary_round_aux prec emax (negb s) m e l
  = SFopp (binary_round_aux prec emax s m e l).
Proof.
  unfold binary_round_aux.
  destruct (shr_fexp prec emax m e l) as [mrs' e'].
  destruct (shr_fexp prec emax
              (round_nearest_even (shr_m mrs') (loc_of_shr_record mrs'))
              e' loc_Exact) as [mrs'' e''].
  destruct (shr_m mrs''); [reflexivity| |reflexivity].
  destruct (e'' <=? emax - prec); reflexivity.
Qed.

Lemma binary_round_opp (prec emax : Z) (s : bool) (m : positive) (e : Z) :
  binary_round prec emax (negb s) m e
  = SFopp (binary_round prec emax s m e).
Proof.
  unfold binary_round.
  destruct (shl_align m e (fexp prec emax (Z.pos (digits2_pos m) + e)))
    as [mz ez].
  apply binary_round_aux_opp.
Qed.

Lemma float_of_double_opp (x : spec_float) :
  float_of_double (SFopp x) = SFopp (float_of_double x).
Proof. destruct x; try reflexivity. apply binary_round_opp. Qed.

Lemma double_of_float_opp (x : spec_float) :
  double_of_float (SFopp x) = SFopp (double_of_float x).
Proof. destruct x; try reflexivity. apply binary_round_opp. Qed.

Lemma double_div_opp (x : spec_float) (m : positive) (e : Z) :
  double_div (SFopp x) (S754_finite false m e)
  = SFopp (double_div x (S754_finite false m e)).
Proof.
  destruct x as [s|s| |s mx ex]; try reflexivity;
    try (cbn; rewrite !xorb_false_r; reflexivity).
  unfold double_div. cbn [SFopp SFdiv].
  destruct (SFdiv_core_binary double_prec double_emax
              (Z.pos mx) ex (Z.pos m) e) as [[mz ez] lz].
  rewrite !xorb_false_r. apply binary_round_aux_opp.
Qed.

Lemma literals_positive :
  lit_100_0 = S754_finite false 7036874417766400 (-46)
  /\ lit_25_4 = S754_finite false 7149464408450662 (-48).
Proof. split; vm_compute; reflexivity. Qed.

Lemma float_of_hundredths_opp (c : Z) :
  c <> 0 -> float_of_hundredths (- c) = SFopp (float_of_hundredths c).
Proof.
  intros Hc. unfold float_of_hundredths.
  destruct literals_positive as [-> _].
  rewrite <- float_of_double_opp, <- double_div_opp. f_equal. f_equal.
  destruct c as [|p|p]; [contradiction| |]; unfold double_of_long;
    cbn [Z.opp binary_normalize];
    [apply (binary_round_opp double_prec double_emax false)
    |rewrite (binary_round_opp double_prec double_emax false);
     destruct (binary_round double_prec double_emax false p 0);
     cbn [SFopp]; rewrite ?negb_involutive; reflexivity].
Qed.

Lemma to_inches_opp (x : spec_float) :
  to_inches (SFopp x) = SFopp (to_inches x).
Proof.
  unfold to_inches. destruct literals_positive as [_ ->].
  rewrite double_of_float_opp, double_div_opp, float_of_double_opp.
  reflexivity.
Qed.

(** X8: the sign bit only changes the sign.  Two frames with the same
    magnitude field, not zero, and the same unit bit, one with bit 20 clear
    and one with bit 20 set, decode to opposite values: same mantissa and
    exponent, in millimeters and in inches, clamped or not. *)
Theorem X8_sign_bit_negates (f_plus f_minus : Z) (g : globals)
  (Hlow : f_plus mod 2 ^ 20 = f_minus mod 2 ^ 20)
  (Hnonzero : f_plus mod 2 ^ 20 <> 0)
  (Hunit : Z.testbit f_plus 23 = Z.testbit f_minus 23)
  (Hplus : Z.testbit f_plus 20 = false)
  (Hminus : Z.testbit f_minus 20 = true) :
  measurement (handleData f_minus g)
  = SFopp (measurement (handleData f_plus g)).
Proof.
  rewrite !handleData_measurement, <- Hunit.
  assert (hundredths f_minus = - hundredths f_plus) as Hopp
    by (unfold hundredths; rewrite Hplus, Hminus, <- Hlow; lia).
  assert (hundredths f_plus <> 0) as Hnz.
  { unfold hundredths. rewrite Hplus.
    pose proof (Z.mod_pos_bound f_plus (2 ^ 20) ltac:(lia)). lia. }
  rewrite Hopp, float_of_hundredths_opp by exact Hnz.
  destruct (Z.testbit f_plus 23); [apply to_inches_opp|reflexivity].
Qed.

Lemma X8_sign_bit_negates_witness :
  (0x803A5E mod 2 ^ 20 = 0x903A5E mod 2 ^ 20
   /\ 0x803A5E mod 2 ^ 20 <> 0
   /\ Z.testbit 0x803A5E 23 = Z.testbit 0x903A5E 23
   /\ Z.testbit 0x803A5E 20 = false
   /\ Z.testbit 0x903A5E 20 = true)
  /\ measurement (handleData 0x803A5E initial)
     = S754_finite false 12336868 (-21)
  /\ measurement (handleData 0x903A5E initial)
     = SFopp (measurement (handleData 0x803A5E initial)).
Proof.
  split; [concrete|]. split; [concrete|].
  apply (X8_sign_bit_negates 0x803A5E 0x903A5E initial); concrete.
Defined.

(** ** The binary dump *)

Lemma bitRead_b2z (value bit : Z) :
  0 <= bit -> bitRead value bit = Z.b2z (Z.testbit value bit).
Proof.
  intros Hbit. unfold bitRead.
  change 1 with (Z.ones 1). rewrite Z.land_ones by lia.
  change (2 ^ 1) with 2. rewrite <- Z.bit0_mod, Z.shiftr_spec by lia.
  rewrite Z.add_0_l. reflexivity.
Qed.

Lemma printed_digits_app (a b : list serial_event) :
  printed_digits (a ++ b) = printed_digits a ++ printed_digits b.
Proof.
  induction a as [|[s|z|x digits|] a IH]; cbn [app printed_digits];
    rewrite ?IH; reflexivity.
Qed.

Lemma printed_digits_binary_text (value : Z) (n : nat) :
  printed_digits (binary_text value (S n))
  = Z.b2z (Z.testbit value (Z.of_nat n))
    :: printed_digits (binary_text value n).
Proof.
  cbn [binary_text printed_digits]. rewrite bitRead_b2z by lia.
  destruct (Z.of_nat n mod 4 =? 0); reflexivity.
Qed.

Lemma low_bits_step (value : Z) (n : Z) :
  0 <= n ->
  value mod 2 ^ (n + 1)
  = Z.b2z (Z.testbit value n) * 2 ^ n + value mod 2 ^ n.
Proof.
  intros Hn.
  destruct (Z.testbit_spec value n Hn) as (l & h & Hl & Hv).
  pose proof (Z.pow_pos_nonneg 2 n ltac:(lia) Hn) as Hpow.
  assert (value mod 2 ^ n = l) as ->.
  { symmetry.
    apply (Z.mod_unique_pos _ _ (Z.b2z (Z.testbit value n) + 2 * h));
      [exact Hl|rewrite Hv at 1; ring]. }
  rewrite Z.pow_add_r by lia. change (2 ^ 1) with 2.
  symmetry. apply (Z.mod_unique_pos _ _ h).
  - destruct (Z.testbit value n); cbn [Z.b2z]; lia.
  - rewrite Hv at 1. ring.
Qed.

Lemma digits_of_binary_text (value : Z) (n : nat) :
  forall acc,
    fold_left (fun a digit => 2 * a + digit)
              (printed_digits (binary_text value n)) acc
    = acc * 2 ^ Z.of_nat n + value mod 2 ^ Z.of_nat n.
Proof.
  induction n as [|k IH]; intros acc.
  - cbn. rewrite Z.mod_1_r. ring.
  - rewrite printed_digits_binary_text. cbn [fold_left]. rewrite IH.
    rewrite Nat2Z.inj_succ. unfold Z.succ.
    rewrite low_bits_step, Z.pow_add_r by lia. ring.
Qed.

Lemma length_digits_of_binary_text (value : Z) (n : nat) :
  List.length (printed_digits (binary_text value n)) = n.
Proof.
  induction n as [|k IH]; [reflexivity|].
  rewrite printed_digits_binary_text. cbn [List.length]. rewrite IH.
  reflexivity.
Qed.

(** X9: for a 32-bit [value] and [bits] from 0 to 32,
    [print_binary(value, bits)] appends to the serial output; it prints
    exactly [bits] digits, and these digits, most significant first, spell
    [value] modulo 2^bits.  With [bits] zero it prints nothing. *)
Theorem X9_binary_dump_reads_back (value bits : Z) (g : globals)
  (Hvalue : 0 <= value < 2 ^ 32)
  (Hbits : 0 <= bits <= 32) :
  let text := Serial (print_binary value bits initial) in
  Serial (print_binary value bits g) = Serial g ++ text
  /\ Z.of_nat (List.length (printed_digits text)) = bits
  /\ digits_value (printed_digits text) = value mod 2 ^ bits
  /\ (bits = 0 -> text = []).
Proof.
  intros text. subst text. unfold print_binary.
  rewrite !print_binary_from_appends. cbn [Serial initial app].
  split; [reflexivity|]. split; [|split].
  - rewrite length_digits_of_binary_text. lia.
  - unfold digits_value. rewrite digits_of_binary_text.
    rewrite Z2Nat.id by lia. ring.
  - intros ->. reflexivity.
Qed.

Lemma X9_binary_dump_reads_back_witness :
  (0 <= 0x903A5E < 2 ^ 32 /\ 0 <= 4 <= 32)
  /\ Serial (print_binary 0x903A5E 4 initial)
     = [print_int 1; print_int 1; print_int 1; print_int 0; print_str " "]
  /\ digits_value (printed_digits (Serial (print_binary 0x903A5E 4 initial)))
     = 0x903A5E mod 2 ^ 4.
Proof.
  split; [concrete|]. split; [concrete|].
  apply (X9_binary_dump_reads_back 0x903A5E 4 initial); concrete.
Defined.

(** ** The display *)

(** X10: the refresh throttle counts milliseconds modulo 256.  After a
    refresh at time [t], an unforced call [d] ms later refreshes exactly
    when [d mod 256] is 100 or more: never within the first 100 ms, and
    not between 256 and 355 ms either. *)
Theorem X10_refresh_throttle (t d : Z) (g : globals) (u : display)
  (Hlast : oledTimer u = uint8_t t) :
  updateOled false (t + d) g u
  = if d mod 256 <? 100 then u else updateOled true (t + d) g u.
Proof.
  unfold updateOled. cbn [orb]. rewrite Hlast.
  assert (uint8_t (uint8_t (t + d) - uint8_t t) = d mod 256) as ->.
  { unfold uint8_t. change (2 ^ 8) with 256.
    rewrite <- Zminus_mod. f_equal. ring. }
  unfold UPDATE_OLED_PERIOD. rewrite Z.geb_leb.
  destruct (Z.leb_spec 100 (d mod 256)), (Z.ltb_spec (d mod 256) 100);
    try lia; reflexivity.
Qed.

Lemma X10_refresh_throttle_witness :
  let u := updateOled true 1000 initial (mkDisplay 0 []) in
  oledTimer u = uint8_t 1000
  /\ updateOled false (1000 + 99) initial u = u
  /\ updateOled false (1000 + 300) initial u = u
  /\ updateOled false (1000 + 100) initial u
     = updateOled true (1000 + 100) initial u.
Proof.
  intros u. split; [reflexivity|].
  split; [|split].
  - apply (X10_refresh_throttle 1000 99 initial u). reflexivity.
  - apply (X10_refresh_throttle 1000 300 initial u). reflexivity.
  - apply (X10_refresh_throttle 1000 100 initial u). reflexivity.
Defined.

Lemma all_ruler_ok : holds_from ruler_ok 0 (Z.to_nat 15001) = true.
Proof. vm_compute. reflexivity. Qed.

Lemma hundredths_unsigned (data_copy : Z) :
  Z.testbit data_copy 20 = false ->
  hundredths data_copy = Z.min 15000 (data_copy mod 2 ^ 20)
  /\ 0 <= hundredths data_copy <= 15000.
Proof.
  intros Hsign. unfold hundredths. rewrite Hsign.
  pose proof (Z.mod_pos_bound data_copy (2 ^ 20) ltac:(lia)). lia.
Qed.

(** X11: for a frame in millimeters with the sign bit clear, the bar on
    the ruler is drawn from x = 29 to x = 29 + ceil(c / 250), where [c] is
    the decoded number of hundredths: one pixel per 2.5 mm, rounded up
    exactly (the float arithmetic never moves the result), at most up to
    x = 89. *)
Theorem X11_ruler_bar (data_copy : Z) (g : globals) (u : display)
  (Hmm : Z.testbit data_copy 23 = false)
  (Hplus : Z.testbit data_copy 20 = false) :
  fillMeasuredDistanceOnRuler (handleData data_copy g) u
  = mkDisplay (oledTimer u)
      (oled u ++ [drawBitmap 23 0 82 15;
                  rect 29 5 (29 + (hundredths data_copy + 249) / 250) 9])
  /\ 29 <= 29 + (hundredths data_copy + 249) / 250 <= 89.
Proof.
  destruct (hundredths_unsigned data_copy Hplus) as [_ Hr].
  pose proof (holds_from_spec _ _ _ (hundredths data_copy) all_ruler_ok
                ltac:(lia)) as Hok.
  unfold ruler_ok in Hok. apply andb_prop in Hok. destruct Hok as [Hon Hedge].
  apply negb_true_iff in Hon. apply Z.eqb_eq in Hedge.
  split.
  - unfold fillMeasuredDistanceOnRuler.
    rewrite handleData_measurement, Hmm, Hon, Hedge.
    unfold oled_do. cbn [oledTimer oled]. rewrite <- app_assoc. reflexivity.
  - split.
    + pose proof (Z.div_pos (hundredths data_copy + 249) 250). lia.
    + assert ((hundredths data_copy + 249) / 250 <= 15249 / 250)
        by (apply Z.div_le_mono; lia).
      change (15249 / 250) with 60 in *. lia.
Qed.

Lemma X11_ruler_bar_witness :
  (Z.testbit 14942 23 = false /\ Z.testbit 14942 20 = false)
  /\ hundredths 14942 = 14942
  /\ fillMeasuredDistanceOnRuler (handleData 14942 initial) (mkDisplay 0 [])
     = mkDisplay 0 [drawBitmap 23 0 82 15; rect 29 5 89 9].
Proof.
  split; [concrete|]. split; [concrete|].
  apply (X11_ruler_bar 14942 initial (mkDisplay 0 [])); concrete.
Defined.

Lemma close_to_bool_negative (k : positive) (x : spec_float) (c : Z)
  (d : positive) :
  close_to_bool k x c d = true -> c < 0 ->
  exists m e, x = S754_finite true m e.
Proof.
  unfold close_to_bool. intros H Hc.
  destruct x as [s| | |s m [|p|p]]; try discriminate.
  - apply Z.eqb_eq in H. lia.
  - destruct s; [exists m, (Z.neg p); reflexivity|].
    apply Z.leb_le in H. cbn [cond_Zopp] in H.
    pose proof (Pos2Z.is_pos d). pose proof (Pos2Z.is_pos (2 ^ p)).
    pose proof (Pos2Z.is_pos (2 ^ k)). pose proof (Pos2Z.is_pos m). nia.
Qed.

(** X12: a negative reading, in millimeters or in inches, draws nothing on
    the ruler: the bitmap and the bar of the reading before stay as they
    are. *)
Theorem X12_negative_reading_leaves_ruler
  (data_copy : Z) (g : globals) (u : display)
  (Hneg : hundredths data_copy < 0) :
  fillMeasuredDistanceOnRuler (handleData data_copy g) u = u.
Proof.
  pose proof (hundredths_range data_copy) as Hr.
  assert (exists m e, measurement (handleData data_copy g)
                      = S754_finite true m e) as (m & e & Hm).
  { rewrite handleData_measurement. destruct (Z.testbit data_copy 23).
    - apply (close_to_bool_negative 23 _ (hundredths data_copy) 2540);
        [|exact Hneg].
      apply (holds_from_spec _ _ _ (hundredths data_copy) all_inches_ok).
      lia.
    - apply (close_to_bool_negative 24 _ (hundredths data_copy) 100);
        [|exact Hneg].
      pose proof (holds_from_spec _ _ _ (hundredths data_copy)
                    all_millimeters_ok ltac:(lia)) as Hok.
      unfold millimeters_ok in Hok. apply andb_prop in Hok. apply Hok. }
  unfold fillMeasuredDistanceOnRuler. rewrite Hm. reflexivity.
Qed.

Lemma X12_negative_reading_leaves_ruler_witness :
  hundredths 0x903A5E < 0
  /\ fillMeasuredDistanceOnRuler (handleData 0x903A5E initial)
       (mkDisplay 0 [drawBitmap 23 0 82 15; rect 29 5 89 9])
     = mkDisplay 0 [drawBitmap 23 0 82 15; rect 29 5 89 9].
Proof.
  split; [concrete|].
  apply (X12_negative_reading_leaves_ruler 0x903A5E initial). concrete.
Defined.

Lemma loop_drains (g : globals) :
  new_packet_ready g = true ->
  loop g = handleData (caliper_raw_data g) (set_new_packet_ready false g).
Proof. intros Hready. unfold loop. rewrite Hready. reflexivity. Qed.

Lemma drawMeasuredValue_calls (g : globals) (u : display) :
  drawMeasuredValue g u
  = mkDisplay (oledTimer u)
      (oled u ++ [setCursorXY 18 16; setScale 2;
                  printf (if inch g then "%0.3f inch  " else "%0.2f mm  ")
                         (measurement g)]).
Proof.
  unfold drawMeasuredValue, oled_do. cbn [oledTimer oled].
  destruct (inch g); rewrite <- !app_assoc; reflexivity.
Qed.

Lemma fillMeasuredDistanceOnRuler_calls (g : globals) (u : display) :
  exists ruler,
    fillMeasuredDistanceOnRuler g u = mkDisplay (oledTimer u) (oled u ++ ruler)
    /\ (ruler = []
        \/ exists x1, ruler = [drawBitmap 23 0 82 15; rect 29 5 x1 9]).
Proof.
  unfold fillMeasuredDistanceOnRuler.
  destruct (off_the_ruler (measurement g)).
  - exists []. rewrite app_nil_r. destruct u; split; [reflexivity|].
    left. reflexivity.
  - eexists. split.
    + unfold oled_do. cbn [oledTimer oled]. rewrite <- app_assoc.
      reflexivity.
    + right. eexists. reflexivity.
Qed.

(** X13: a pass of the whole loop that finds a frame ready while the
    throttle lets a refresh through shows the frame it has just drained:
    the decoded value, with the format for inches exactly when bit 23 of
    that frame is set, after at most one redrawing of the ruler, and
    followed by [update]; [oledTimer] takes the low byte of [millis()]. *)
Theorem X13_refresh_shows_drained_frame
  (millis : Z) (g : globals) (u : display)
  (Hready : new_packet_ready g = true)
  (Hdue : UPDATE_OLED_PERIOD <= uint8_t (uint8_t millis - oledTimer u)) :
  let after := loop_with_display millis (g, u) in
  fst after = loop g
  /\ oledTimer (snd after) = uint8_t millis
  /\ exists ruler,
       oled (snd after)
       = oled u ++ ruler
         ++ [setCursorXY 18 16; setScale 2;
             printf (if Z.testbit (caliper_raw_data g) 23
                     then "%0.3f inch  " else "%0.2f mm  ")
                    (measurement (loop g));
             update]
       /\ (ruler = []
           \/ exists x1, ruler = [drawBitmap 23 0 82 15; rect 29 5 x1 9]).
Proof.
  intros after. subst after. unfold loop_with_display. rewrite Hready.
  cbn [fst snd]. split; [reflexivity|].
  assert (inch (loop g) = Z.testbit (caliper_raw_data g) 23) as Hinch
    by (rewrite loop_drains by exact Hready; apply handleData_inch).
  generalize dependent (loop g). intros g' Hinch.
  unfold updateOled. cbn [orb].
  destruct (Z.geb_spec (uint8_t (uint8_t millis - oledTimer u))
                       UPDATE_OLED_PERIOD) as [_|Hlt]; [|lia].
  destruct (fillMeasuredDistanceOnRuler_calls g'
              (mkDisplay (uint8_t millis) (oled u)))
    as (ruler & Hfill & Hruler).
  rewrite Hfill, drawMeasuredValue_calls, Hinch.
  unfold oled_do. cbn [oledTimer oled].
  split; [reflexivity|]. exists ruler. split; [|exact Hruler].
  rewrite <- !app_assoc. reflexivity.
Qed.

Lemma X13_refresh_shows_drained_frame_witness :
  let g := run_edges (edges_of_frame 10000 100 0x903A5E 24) initial in
  let u := mkDisplay 0 [] in
  (new_packet_ready g = true
   /\ UPDATE_OLED_PERIOD <= uint8_t (uint8_t 1400 - oledTimer u))
  /\ oledTimer (snd (loop_with_display 1400 (g, u))) = 120
  /\ exists ruler,
       oled (snd (loop_with_display 1400 (g, u)))
       = oled u ++ ruler
         ++ [setCursorXY 18 16; setScale 2;
             printf (if Z.testbit (caliper_raw_data g) 23
                     then "%0.3f inch  " else "%0.2f mm  ")
                    (measurement (loop g));
             update]
       /\ (ruler = []
           \/ exists x1, ruler = [drawBitmap 23 0 82 15; rect 29 5 x1 9]).
Proof.
  intros g u. split; [concrete|].
  destruct (X13_refresh_shows_drained_frame 1400 g u
              ltac:(concrete) ltac:(concrete)) as (_ & Htimer & Hcalls).
  split; [exact Htimer|exact Hcalls].
Defined.

(** ** A caliper that keeps to the protocol *)

Lemma handleData_last (data_copy : Z) (g : globals) :
  last_interrupt_time (handleData data_copy g) = last_interrupt_time g.
Proof. rewrite handleData_frame. reflexivity. Qed.

Lemma last_set_new_packet_ready (b : bool) (g : globals) :
  last_interrupt_time (set_new_packet_ready b g) = last_interrupt_time g.
Proof. reflexivity. Qed.

(** X14: when every frame has exactly 24 edges, each at most 5000 us after
    the one before with any spacing, every frame starts more than 5000 us
    after the last edge of the frame before, and the main loop makes one
    pass after each frame, [handleData] receives every frame exactly once,
    in the order sent, and nothing else.  Gaps are the differences of the
    timestamps on 32 bits, as line 59 takes them: the true gaps, when
    these are below 2^32 us; the timestamps themselves may wrap. *)
Theorem X14_each_frame_handed_over_once
  (frames : list (list edge)) (s : system)
  (Hpc : pc s = at_test)
  (Hspaced : well_spaced (last_interrupt_time (vars s)) frames) :
  drained (run (polled_after_each_frame frames) s)
  = drained s ++ map frame_of frames.
Proof.
  revert s Hpc Hspaced.
  induction frames as [|f rest IH]; intros s Hpc Hspaced.
  - cbn. rewrite app_nil_r. reflexivity.
  - destruct f as [|e es]; [destruct Hspaced|].
    destruct Hspaced as (Hlen & Hgap & Hclose & Hrest).
    cbn [polled_after_each_frame].
    change (map frame_of ((e :: es) :: rest))
      with (frame_of (e :: es) :: map frame_of rest).
    rewrite run_app, run_events_of_edges, Hpc.
    destruct (run_whole_frame (vars s) e es Hlen Hgap Hclose)
      as (Hraw & _ & Hready).
    pose proof (run_edges_last (e :: es) (vars s)) as Hlast.
    change (last_time (last_interrupt_time (vars s)) (e :: es))
      with (last_time (edge_time e) es) in Hlast.
    revert Hraw Hready Hlast.
    generalize (frame_of (e :: es)).
    generalize (run_edges (e :: es) (vars s)).
    intros g value Hraw Hready Hlast.
    cbn [app]. rewrite !run_cons.
    rewrite step_test_ready, step_critical by exact Hready.
    rewrite Hraw, IH.
    + cbn [drained]. rewrite <- app_assoc. reflexivity.
    + reflexivity.
    + cbn [vars].
      rewrite handleData_last, last_set_new_packet_ready, Hlast.
      exact Hrest.
Qed.

Lemma X14_each_frame_handed_over_once_witness :
  let times_a := [10000; 10050; 10300; 10301; 15301; 15400; 15500; 15600;
                  15700; 15800; 15900; 16000; 16100; 16200; 16300; 16400;
                  16500; 16600; 16700; 16800; 16900; 17000; 17100; 17200] in
  let times_b := [4294967000; 4294967050; 4294967290; 134; 5134; 5135; 9000;
                  9400; 9401; 9402; 9500; 14500; 14600; 14700; 19000; 19010;
                  19020; 19030; 24030; 24031; 25000; 26000; 27000; 32000] in
  let frames := [edges_at times_a 14942; edges_at times_b 0x903A5E;
                 edges_of_frame 120000 120 0 24;
                 edges_of_frame 300000 100 14942 24] in
  (pc boot = at_test
   /\ well_spaced (last_interrupt_time (vars boot)) frames)
  /\ map frame_of frames = [14942; 0x903A5E; 0; 14942]
  /\ drained (run (polled_after_each_frame frames) boot)
     = drained boot ++ map frame_of frames.
Proof.
  intros times_a times_b frames. split; [concrete|]. split; [concrete|].
  apply (X14_each_frame_handed_over_once frames boot); concrete.
Defined.

(** ** Readings in inches *)

Lemma inches_within_six (x : spec_float) (c : Z) :
  close_to_bool 23 x c 2540 = true ->
  -15000 <= c <= 15000 ->
  is_finite x = true /\ (-6 <= SF2Q x <= 6)%Q.
Proof.
  unfold close_to_bool. intros H Hc.
  destruct x as [s| | |s m [|p|p]]; try discriminate.
  - split; [reflexivity|]. cbn. unfold Qle. cbn. lia.
  - apply Z.leb_le in H. split; [reflexivity|].
    unfold SF2Q, Qle. cbn [Qnum Qden].
    set (sm := cond_Zopp s (Z.pos m)) in *.
    pose proof (Pos2Z.is_pos (2 ^ p)) as HP.
    change (Z.pos (2 ^ 23)) with 8388608 in H.
    change (Z.pos 2540) with 2540 in H.
    set (P := Z.pos (2 ^ p)) in *.
    change (Z.pos 1) with 1.
    assert (Z.abs c * P = Z.abs (c * P)) as Habs
      by (rewrite Z.abs_mul, (Z.abs_eq P) by lia; reflexivity).
    rewrite Habs in H.
    assert (-15000 * P <= c * P <= 15000 * P) as HcP by nia.
    revert H HcP. generalize (c * P). intros a H HcP. lia.
Qed.

(** X15: with the unit bit set, the decoded value is a finite number
    between -6 and 6: 150 mm are 5.9055 inches. *)
Theorem X15_inches_range (data_copy : Z) (g : globals)
  (Hinch : Z.testbit data_copy 23 = true) :
  inch (handleData data_copy g) = true
  /\ is_finite (measurement (handleData data_copy g)) = true
  /\ (-6 <= SF2Q (measurement (handleData data_copy g)) <= 6)%Q.
Proof.
  rewrite handleData_inch, handleData_measurement, Hinch.
  split; [reflexivity|].
  pose proof (hundredths_range data_copy) as Hr.
  apply (inches_within_six _ (hundredths data_copy)); [|exact Hr].
  apply (holds_from_spec _ _ _ (hundredths data_copy) all_inches_ok). lia.
Qed.

Lemma X15_inches_range_witness :
  Z.testbit 0x8FFFFF 23 = true
  /\ inch (handleData 0x8FFFFF initial) = true
  /\ is_finite (measurement (handleData 0x8FFFFF initial)) = true
  /\ (-6 <= SF2Q (measurement (handleData 0x8FFFFF initial)) <= 6)%Q.
Proof.
  split; [concrete|].
  apply (X15_inches_range 0x8FFFFF initial). concrete.
Defined.
